(** * service_status: a read-only facade over the Windows service-control
    manager (src/service_status.cc)

    The addon exports three functions, [ServiceExists], [GetServiceStatus]
    and [ListServices].  Each opens a session with the service-control
    manager, talks to the platform through a handful of Win32 calls, closes
    what it opened and hands a JavaScript value (or a pending JavaScript
    exception) back to the host.

    The embedding follows the C++ text statement by statement.  The Win32
    calls are effects on a [World]: the platform's own state, the thread's
    last-error cell, the table of open handles, the log of calls made and the
    JavaScript environment's pending exception.  The platform itself is a
    parameter: a [Platform] is any deterministic state machine answering the
    calls, so results quantified over platforms cover every sequence of
    answers, including injected failures.

    Three conventions of Win32 are built into the calls below rather than
    left to the platform: an open, query, enumeration or conversion call
    that fails stores its code in the last-error cell and one that succeeds
    leaves the cell alone; an open call that succeeds returns a handle that
    is not open already; and [CloseServiceHandle] on an open handle releases
    it.  What [CloseServiceHandle] does to the last-error cell is the
    platform's choice: Win32 does not promise that a call which succeeds
    leaves the cell alone, and the source reads the cell after closing. *)

From stdpp Require Import base strings gmap pretty list.
From Stdlib Require Import ZArith NArith Lia.

Set Warnings "-register-all".
Set Default Proof Using "Type".

Open Scope N_scope.

(** ** Win32 data *)

(** The Win32 type names are abbreviations, so that a [DWORD] is an [N] to
    every tactic.  The source compares and prints DWORDs but never computes
    with them, so no wrap-around arises and they are left unbounded. *)
Abbreviation DWORD := N (only parsing).
Abbreviation WCHAR := N (only parsing).
(** A wide string is the list of its code units up to, and without, the
    terminating NUL. A pointer that may be NULL is an [option]. *)
Abbreviation WSTR := (list N) (only parsing).
Abbreviation LPWSTR := (option (list N)) (only parsing).
(** Handles are non-NULL by construction; a NULL [SC_HANDLE] is [None]. *)
Abbreviation SC_HANDLE := positive (only parsing).

(** winerror.h *)
Definition ERROR_ACCESS_DENIED : DWORD := 5.
Definition ERROR_INVALID_HANDLE : DWORD := 6.
Definition ERROR_INSUFFICIENT_BUFFER : DWORD := 122.
Definition ERROR_MORE_DATA : DWORD := 234.
Definition ERROR_SERVICE_DOES_NOT_EXIST : DWORD := 1060.
Definition ERROR_SHUTDOWN_IN_PROGRESS : DWORD := 1115.

(** winsvc.h: access rights *)
Definition SC_MANAGER_CONNECT : DWORD := 1.
Definition SC_MANAGER_ENUMERATE_SERVICE : DWORD := 4.
Definition SERVICE_QUERY_CONFIG : DWORD := 1.
Definition SERVICE_QUERY_STATUS : DWORD := 4.

(** winsvc.h: values of [dwCurrentState] *)
Definition SERVICE_STOPPED : DWORD := 1.
Definition SERVICE_START_PENDING : DWORD := 2.
Definition SERVICE_STOP_PENDING : DWORD := 3.
Definition SERVICE_RUNNING : DWORD := 4.
Definition SERVICE_CONTINUE_PENDING : DWORD := 5.
Definition SERVICE_PAUSE_PENDING : DWORD := 6.
Definition SERVICE_PAUSED : DWORD := 7.

(** The fields of the Win32 structures that the source reads. *)
Record SERVICE_STATUS_PROCESS := {
  dwCurrentState : DWORD;
  dwProcessId : DWORD
}.

Record QUERY_SERVICE_CONFIGW := {
  config_lpDisplayName : LPWSTR
}.

Record ENUM_SERVICE_STATUS_PROCESSW := {
  lpServiceName : LPWSTR;
  lpDisplayName : LPWSTR;
  ServiceStatusProcess : SERVICE_STATUS_PROCESS
}.

#[global] Instance ENUM_SERVICE_STATUS_PROCESSW_inhabited :
  Inhabited ENUM_SERVICE_STATUS_PROCESSW :=
  populate {| lpServiceName := None; lpDisplayName := None;
              ServiceStatusProcess := {| dwCurrentState := 0; dwProcessId := 0 |} |}.

(** ** JavaScript values seen through N-API *)

Inductive JsValue :=
  | JsUndefined
  | JsNull
  | JsBoolean (b : bool)
  | JsNumber (n : Z)
  | JsString (utf8 : string)
  | JsObject (props : gmap string JsValue)
  | JsArray (items : list JsValue).

Inductive JsError :=
  | TypeError (message : string)
  | Error (message : string).

(** What the JavaScript caller observes: the returned value, unless an
    exception was left pending. *)
Inductive Completion :=
  | Returned (v : JsValue)
  | Thrown (e : JsError).

(** [Napi::CallbackInfo]: the actual arguments. *)
Abbreviation CallbackInfo := (list JsValue) (only parsing).

Definition Length (info : CallbackInfo) : Z := Z.of_nat (length info).

(** [info[i]]: an absent argument reads as undefined. *)
Definition arg (info : CallbackInfo) (i : nat) : JsValue :=
  default JsUndefined (info !! i).

Definition IsString (v : JsValue) : bool :=
  match v with JsString _ => true | _ => false end.

(** [v.As<Napi::String>().Utf8Value()], used only once [IsString] holds. *)
Definition Utf8Value (v : JsValue) : string :=
  match v with JsString s => s | _ => "" end.

(** [s.c_str()] read as a C string: the bytes before the first NUL. *)
Fixpoint c_str (s : string) : string :=
  match s with
  | EmptyString => EmptyString
  | String c rest =>
      if Ascii.eqb c Ascii.zero then EmptyString else String c (c_str rest)
  end.

(** [std::to_string] of an unsigned value. *)
Definition to_string (n : DWORD) : string := pretty n.

(** ** The platform *)

(** The answer of a Win32 call that reports failure through its return
    value: on failure the call stores [code] in the last-error cell. *)
Inductive Reply (A : Type) :=
  | Ok (a : A)
  | Fail (code : DWORD).
Arguments Ok {A} a.
Arguments Fail {A} code.

(** [QueryServiceConfigW]: its result and what it stores through
    [pcbBytesNeeded], if anything. *)
Record ConfigReply := {
  config_result : Reply QUERY_SERVICE_CONFIGW;
  config_bytesNeeded : option DWORD
}.

(** [EnumServicesStatusExW]: its result, the entries it put in the buffer
    (their number is what it stores through [lpServicesReturned]) and what it
    stores through [pcbBytesNeeded] and [lpResumeHandle], if anything. *)
Record EnumReply := {
  enum_result : Reply unit;
  enum_services : list ENUM_SERVICE_STATUS_PROCESSW;
  enum_bytesNeeded : option DWORD;
  enum_resumeHandle : option DWORD
}.

(** The variables of [ListServices] after a call of
    [EnumServicesStatusExW]. *)
Record EnumOut := {
  out_ok : bool;
  out_buf : list ENUM_SERVICE_STATUS_PROCESSW;
  out_bytesNeeded : DWORD;
  out_servicesReturned : DWORD;
  out_resumeHandle : DWORD
}.

(** A platform is a state machine over its own state [S].  Each function
    takes the arguments the source passes that vary and the current state.
    The two code-page conversions are pure.  [mb2wc] has no failure case:
    with flags 0 the UTF-8 decoder replaces malformed input, and the source
    uses its result as a length without a check.  [handle_closed] gives what
    closing a handle stores in the last-error cell, if it stores anything,
    and the state after. *)
Record Platform (S : Type) := {
  mb2wc : string → WSTR;
  wc2mb : WSTR → Reply string;
  scm_open : DWORD → S → Reply unit * S;
  svc_open : SC_HANDLE → WSTR → DWORD → S → Reply unit * S;
  svc_status : SC_HANDLE → S → Reply SERVICE_STATUS_PROCESS * S;
  svc_config : SC_HANDLE → DWORD → S → ConfigReply * S;
  scm_enum : SC_HANDLE → DWORD → DWORD → S → EnumReply * S;
  handle_closed : SC_HANDLE → S → option DWORD * S
}.
Arguments mb2wc {S} _ _.
Arguments wc2mb {S} _ _.
Arguments scm_open {S} _ _ _.
Arguments svc_open {S} _ _ _ _ _.
Arguments svc_status {S} _ _ _.
Arguments svc_config {S} _ _ _ _.
Arguments scm_enum {S} _ _ _ _ _.
Arguments handle_closed {S} _ _ _.

(** The platform calls, as logged. *)
Inductive Call :=
  | CallMultiByteToWideChar (src : string) (cchWideChar : Z)
  | CallWideCharToMultiByte (src : WSTR) (cbMultiByte : Z)
  | CallOpenSCManagerW (access : DWORD)
  | CallOpenServiceW (hSCManager : SC_HANDLE) (name : WSTR) (access : DWORD)
  | CallQueryServiceStatusEx (hService : SC_HANDLE)
  | CallQueryServiceConfigW (hService : SC_HANDLE) (cbBufSize : DWORD)
  | CallEnumServicesStatusExW (hSCManager : SC_HANDLE) (cbBufSize resume : DWORD)
  | CallCloseServiceHandle (h : SC_HANDLE)
  | CallGetLastError.

Record World (S : Type) := mkWorld {
  platform_state : S;
  last_error : DWORD;
  open_handles : gset SC_HANDLE;
  calls : list Call;
  pending_exception : option JsError
}.
Arguments mkWorld {S} _ _ _ _ _.
Arguments platform_state {S} _.
Arguments last_error {S} _.
Arguments open_handles {S} _.
Arguments calls {S} _.
Arguments pending_exception {S} _.

(** The world in which the host enters an exported function: nothing
    logged yet and no exception pending. *)
Definition entry {S} (σ : S) (err : DWORD) (H : gset SC_HANDLE) : World S :=
  mkWorld σ err H [] None.

(** ** The effect monad *)

Definition M (S A : Type) : Type := World S → A * World S.

Definition ret {S A} (a : A) : M S A := λ w, (a, w).

Definition bind {S A B} (m : M S A) (k : A → M S B) : M S B :=
  λ w, let '(a, w') := m w in k a w'.

Declare Scope m_scope.
Delimit Scope m_scope with m.
Notation "x <- m ;; k" := (bind m (λ x, k))
  (at level 100, m at next level, right associativity) : m_scope.
Notation "m ;; k" := (bind m (λ _, k))
  (at level 100, right associativity) : m_scope.
Open Scope m_scope.

Definition completion {S} (r : JsValue * World S) : Completion :=
  match pending_exception r.2 with
  | Some e => Thrown e
  | None => Returned r.1
  end.

(** ** The calls the source makes *)

Section Calls.
Context {S : Type} (P : Platform S).

Definition log (c : Call) (w : World S) : World S :=
  mkWorld (platform_state w) (last_error w) (open_handles w)
          (calls w ++ [c]) (pending_exception w).

Definition with_state (σ : S) (w : World S) : World S :=
  mkWorld σ (last_error w) (open_handles w) (calls w) (pending_exception w).

Definition SetLastError (code : DWORD) (w : World S) : World S :=
  mkWorld (platform_state w) code (open_handles w) (calls w)
          (pending_exception w).

Definition with_handles (H : gset SC_HANDLE) (w : World S) : World S :=
  mkWorld (platform_state w) (last_error w) H (calls w) (pending_exception w).

(** A failing call stores its code; a succeeding one leaves the cell. *)
Definition settle {A} (r : Reply A) (w : World S) : World S :=
  SetLastError (match r with Ok _ => last_error w | Fail code => code end) w.

Definition succeeded {A} (r : Reply A) : bool :=
  match r with Ok _ => true | Fail _ => false end.

Definition GetLastError : M S DWORD :=
  λ w, (last_error w, log CallGetLastError w).

(** A granted handle is one that is not open yet. *)
Definition grant (r : Reply unit) (w : World S) : option SC_HANDLE * World S :=
  match r with
  | Ok _ =>
      let h := fresh (open_handles w) in
      (Some h, with_handles ({[h]} ∪ open_handles w) w)
  | Fail code => (None, SetLastError code w)
  end.

Definition OpenSCManagerW (access : DWORD) : M S (option SC_HANDLE) :=
  λ w, let a := scm_open P access (platform_state w) in
       grant a.1 (with_state a.2 (log (CallOpenSCManagerW access) w)).

Definition OpenServiceW (hSCManager : SC_HANDLE) (name : WSTR) (access : DWORD)
  : M S (option SC_HANDLE) :=
  λ w, let a := svc_open P hSCManager name access (platform_state w) in
       grant a.1 (with_state a.2
                    (log (CallOpenServiceW hSCManager name access) w)).

(** Closing an open handle releases it; the platform decides what the
    call stores in the last-error cell.  The source discards the BOOL it
    returns.  Closing anything else is [ERROR_INVALID_HANDLE]. *)
Definition CloseServiceHandle (h : SC_HANDLE) : M S bool :=
  λ w, let w1 := log (CallCloseServiceHandle h) w in
       if decide (h ∈ open_handles w)
       then
         let a := handle_closed P h (platform_state w) in
         (true, with_handles (open_handles w ∖ {[h]})
                  (SetLastError (default (last_error w) a.1)
                     (with_state a.2 w1)))
       else (false, SetLastError ERROR_INVALID_HANDLE w1).

(** [QueryServiceStatusEx(h, SC_STATUS_PROCESS_INFO, &ssp, ...)]: [ssp] is
    overwritten on success only. *)
Definition QueryServiceStatusEx (hService : SC_HANDLE)
    (ssp : SERVICE_STATUS_PROCESS) : M S (bool * SERVICE_STATUS_PROCESS) :=
  λ w, let a := svc_status P hService (platform_state w) in
       ((succeeded a.1, match a.1 with Ok s => s | Fail _ => ssp end),
        settle a.1 (with_state a.2 (log (CallQueryServiceStatusEx hService) w))).

(** [QueryServiceConfigW(h, buf, cbBufSize, &bytes)]: the buffer contents
    when the call returns TRUE, NULL-like [None] when it returns FALSE, and
    the new value of [bytes]. *)
Definition QueryServiceConfigW (hService : SC_HANDLE) (cbBufSize bytes : DWORD)
  : M S (option QUERY_SERVICE_CONFIGW * DWORD) :=
  λ w, let a := svc_config P hService cbBufSize (platform_state w) in
       let r := config_result a.1 in
       ((match r with Ok c => Some c | Fail _ => None end,
         default bytes (config_bytesNeeded a.1)),
        settle r (with_state a.2
                    (log (CallQueryServiceConfigW hService cbBufSize) w))).

(** [EnumServicesStatusExW(h, ..., buf, cbBufSize, &bytesNeeded,
    &servicesReturned, &resumeHandle, nullptr)]: the BOOL result, the
    buffer contents and the new values of the three in/out variables. *)
Definition EnumServicesStatusExW (hSCManager : SC_HANDLE)
    (cbBufSize bytesNeeded resumeHandle : DWORD) : M S EnumOut :=
  λ w, let a := scm_enum P hSCManager cbBufSize resumeHandle (platform_state w) in
       let r := enum_result a.1 in
       ({| out_ok := succeeded r;
           out_buf := enum_services a.1;
           out_bytesNeeded := default bytesNeeded (enum_bytesNeeded a.1);
           out_servicesReturned := N.of_nat (length (enum_services a.1));
           out_resumeHandle := default resumeHandle (enum_resumeHandle a.1) |},
        settle r (with_state a.2
                    (log (CallEnumServicesStatusExW hSCManager cbBufSize resumeHandle) w))).

(** [MultiByteToWideChar(CP_UTF8, 0, src, -1, dst, cch)]: the number of
    code units including the terminator, and what lands in [dst]. *)
Definition MultiByteToWideChar (src : string) (cchWideChar : Z) : M S (Z * WSTR) :=
  λ w, let text := mb2wc P src in
       ((Z.of_nat (length text) + 1,
         if (cchWideChar =? 0)%Z then [] else text)%Z,
        log (CallMultiByteToWideChar src cchWideChar) w).

(** [WideCharToMultiByte(CP_UTF8, 0, src, -1, dst, cb, nullptr, nullptr)]:
    0 on failure. *)
Definition WideCharToMultiByte (src : WSTR) (cbMultiByte : Z) : M S (Z * string) :=
  λ w, let r := wc2mb P src in
       (match r with
        | Ok text => ((Z.of_nat (String.length text) + 1)%Z,
                      if (cbMultiByte =? 0)%Z then "" else text)
        | Fail _ => (0%Z, "")
        end,
        settle r (log (CallWideCharToMultiByte src cbMultiByte) w)).

Definition ThrowAsJavaScriptException (e : JsError) : M S unit :=
  λ w, (tt, mkWorld (platform_state w) (last_error w) (open_handles w)
                    (calls w) (Some e)).

(** ** The source, function by function *)

(** Helper: convert WCHAR* to std::string (UTF-8) *)
Definition WideToUtf8 (wide : LPWSTR) : M S string :=
  match wide with
  | None => ret ""
  | Some wide =>
      a <- WideCharToMultiByte wide 0 ;;
      let len := a.1 in
      if (len <=? 0)%Z then ret ""
      else
        b <- WideCharToMultiByte wide len ;;
        ret (String.substring 0 (Z.to_nat (len - 1)) b.2)
  end.

(** Helper: map dwCurrentState to a string *)
Definition StateToString (state : DWORD) : string :=
  if state =? SERVICE_STOPPED then "stopped"
  else if state =? SERVICE_START_PENDING then "start_pending"
  else if state =? SERVICE_STOP_PENDING then "stop_pending"
  else if state =? SERVICE_RUNNING then "running"
  else if state =? SERVICE_CONTINUE_PENDING then "continue_pending"
  else if state =? SERVICE_PAUSE_PENDING then "pause_pending"
  else if state =? SERVICE_PAUSED then "paused"
  else "unknown".

(** The name as handed to [OpenServiceW]: [wname] after the two
    conversion calls. *)
Definition widen (nameUtf8 : string) : M S WSTR :=
  a <- MultiByteToWideChar (c_str nameUtf8) 0 ;;
  let wlen := a.1 in
  b <- MultiByteToWideChar (c_str nameUtf8) wlen ;;
  ret (take (Z.to_nat (wlen - 1)) b.2).

(** The block both named operations and the enumeration run when
    [OpenSCManagerW] returned NULL. *)
Definition manager_open_failed : M S JsValue :=
  err <- GetLastError ;;
  (if err =? ERROR_ACCESS_DENIED
   then ThrowAsJavaScriptException
          (Error "Access denied opening Service Control Manager")
   else ThrowAsJavaScriptException
          (Error ("Failed to open Service Control Manager (error "
                    +:+ to_string err +:+ ")"))) ;;
  ret JsNull.

(** serviceExists(name: string): boolean *)
Definition ServiceExists (info : CallbackInfo) : M S JsValue :=
  if (Length info <? 1)%Z || negb (IsString (arg info 0)) then
    ThrowAsJavaScriptException (TypeError "Service name (string) expected") ;;
    ret JsNull
  else
    let nameUtf8 := Utf8Value (arg info 0) in
    wname <- widen nameUtf8 ;;
    hSCManager <- OpenSCManagerW
                    (N.lor SC_MANAGER_CONNECT SC_MANAGER_ENUMERATE_SERVICE) ;;
    match hSCManager with
    | None => manager_open_failed
    | Some hSCManager =>
        hService <- OpenServiceW hSCManager wname
                      (N.lor SERVICE_QUERY_STATUS SERVICE_QUERY_CONFIG) ;;
        match hService with
        | None =>
            err <- GetLastError ;;
            CloseServiceHandle hSCManager ;;
            if err =? ERROR_SERVICE_DOES_NOT_EXIST then
              ret (JsBoolean false)
            else if err =? ERROR_ACCESS_DENIED then
              ThrowAsJavaScriptException
                (Error ("Access denied opening service '" +:+ nameUtf8 +:+ "'")) ;;
              ret JsNull
            else
              ThrowAsJavaScriptException
                (Error ("Failed to open service '" +:+ nameUtf8
                          +:+ "' (error " +:+ to_string err +:+ ")")) ;;
              ret JsNull
        | Some hService =>
            CloseServiceHandle hService ;;
            CloseServiceHandle hSCManager ;;
            ret (JsBoolean true)
        end
    end.

(** getServiceStatus(name: string): object *)
Definition GetServiceStatus (info : CallbackInfo) : M S JsValue :=
  if (Length info <? 1)%Z || negb (IsString (arg info 0)) then
    ThrowAsJavaScriptException (TypeError "Service name (string) expected") ;;
    ret JsNull
  else
    let nameUtf8 := Utf8Value (arg info 0) in
    wname <- widen nameUtf8 ;;
    hSCManager <- OpenSCManagerW
                    (N.lor SC_MANAGER_CONNECT SC_MANAGER_ENUMERATE_SERVICE) ;;
    match hSCManager with
    | None => manager_open_failed
    | Some hSCManager =>
        hService <- OpenServiceW hSCManager wname
                      (N.lor SERVICE_QUERY_STATUS SERVICE_QUERY_CONFIG) ;;
        match hService with
        | None =>
            err <- GetLastError ;;
            CloseServiceHandle hSCManager ;;
            if err =? ERROR_SERVICE_DOES_NOT_EXIST then
              let result : gmap string JsValue := ∅ in
              let result := <["name" := JsString nameUtf8]> result in
              let result := <["exists" := JsBoolean false]> result in
              let result := <["state" := JsString "not_found"]> result in
              let result := <["pid" := JsNumber 0]> result in
              ret (JsObject result)
            else if err =? ERROR_ACCESS_DENIED then
              ThrowAsJavaScriptException
                (Error ("Access denied opening service '" +:+ nameUtf8 +:+ "'")) ;;
              ret JsNull
            else
              ThrowAsJavaScriptException
                (Error ("Failed to open service '" +:+ nameUtf8
                          +:+ "' (error " +:+ to_string err +:+ ")")) ;;
              ret JsNull
        | Some hService =>
            q <- QueryServiceStatusEx hService
                   {| dwCurrentState := 0; dwProcessId := 0 |} ;;
            let ok := q.1 in
            let ssp := q.2 in
            (* Try to get display name via QueryServiceConfigW *)
            c <- QueryServiceConfigW hService 0 0 ;;
            let configBytes := c.2 in
            displayName <-
              (if 0 <? configBytes then
                 d <- QueryServiceConfigW hService configBytes configBytes ;;
                 match d.1 with
                 | Some pConfig => WideToUtf8 (config_lpDisplayName pConfig)
                 | None => ret ""
                 end
               else ret "") ;;
            CloseServiceHandle hService ;;
            CloseServiceHandle hSCManager ;;
            if negb ok then
              err <- GetLastError ;;
              ThrowAsJavaScriptException
                (Error ("QueryServiceStatusEx failed (error "
                          +:+ to_string err +:+ ")")) ;;
              ret JsNull
            else
              let result : gmap string JsValue := ∅ in
              let result := <["name" := JsString nameUtf8]> result in
              let result := <["exists" := JsBoolean true]> result in
              let result :=
                <["state" := JsString (StateToString (dwCurrentState ssp))]> result in
              let result := <["pid" := JsNumber (Z.of_N (dwProcessId ssp))]> result in
              let result := <["displayName" := JsString displayName]> result in
              ret (JsObject result)
        end
    end.

(** The body of the loop of [ListServices] for [services[i]]. *)
Definition service_object (svc : ENUM_SERVICE_STATUS_PROCESSW) : M S JsValue :=
  name <- WideToUtf8 (lpServiceName svc) ;;
  displayName <- WideToUtf8 (lpDisplayName svc) ;;
  let obj : gmap string JsValue := ∅ in
  let obj := <["name" := JsString name]> obj in
  let obj := <["displayName" := JsString displayName]> obj in
  let obj :=
    <["state" := JsString (StateToString
                             (dwCurrentState (ServiceStatusProcess svc)))]> obj in
  let obj :=
    <["pid" := JsNumber (Z.of_N (dwProcessId (ServiceStatusProcess svc)))]> obj in
  let obj := <["exists" := JsBoolean true]> obj in
  ret (JsObject obj).

(** [for (i ...) { ...; arr.Set(i, obj); }] over the indices still to do. *)
Fixpoint fill_array (services : list ENUM_SERVICE_STATUS_PROCESSW)
    (indices : list nat) (arr : list JsValue) : M S (list JsValue) :=
  match indices with
  | [] => ret arr
  | i :: rest =>
      obj <- service_object (services !!! i) ;;
      fill_array services rest (<[i := obj]> arr)
  end.

(** listServices(): Array<object> *)
Definition ListServices (info : CallbackInfo) : M S JsValue :=
  hSCManager <- OpenSCManagerW
                  (N.lor SC_MANAGER_CONNECT SC_MANAGER_ENUMERATE_SERVICE) ;;
  match hSCManager with
  | None => manager_open_failed
  | Some hSCManager =>
      (* First call to get required buffer size *)
      a <- EnumServicesStatusExW hSCManager 0 0 0 ;;
      let bytesNeeded := out_bytesNeeded a in
      b <- EnumServicesStatusExW hSCManager bytesNeeded bytesNeeded
             (out_resumeHandle a) ;;
      let ok := out_ok b in
      let servicesReturned := out_servicesReturned b in
      CloseServiceHandle hSCManager ;;
      if negb ok then
        err <- GetLastError ;;
        ThrowAsJavaScriptException
          (Error ("EnumServicesStatusExW failed (error "
                    +:+ to_string err +:+ ")")) ;;
        ret JsNull
      else
        let services := out_buf b in
        let n := N.to_nat servicesReturned in
        arr <- fill_array services (seq 0 n) (replicate n JsUndefined) ;;
        ret (JsArray arr)
  end.
End Calls.

Arguments GetLastError {S}.
Arguments ThrowAsJavaScriptException {S} e.
Arguments CloseServiceHandle {S} P h.

(** The two access masks, as the three functions spell them. *)
Definition manager_rights : DWORD :=
  N.lor SC_MANAGER_CONNECT SC_MANAGER_ENUMERATE_SERVICE.
Definition service_rights : DWORD :=
  N.lor SERVICE_QUERY_STATUS SERVICE_QUERY_CONFIG.

(** ** Scripted platforms

    A platform that answers each call site from a fixed table, as a mock
    used for fault injection does.  Names are converted code unit for byte
    (enough for ASCII). *)

Record Script := {
  on_open_manager : Reply unit;
  on_open_service : Reply unit;
  on_status : Reply SERVICE_STATUS_PROCESS;
  on_config_size : ConfigReply;
  on_config : ConfigReply;
  on_enum_size : EnumReply;
  on_enum : EnumReply
}.

Definition wide_of_ascii (s : string) : WSTR :=
  Ascii.N_of_ascii <$> String.list_ascii_of_string s.

Definition ascii_of_wide (w : WSTR) : string :=
  String.string_of_list_ascii (Ascii.ascii_of_N <$> w).

Definition scripted (s : Script) : Platform unit := {|
  mb2wc := wide_of_ascii;
  wc2mb := λ w, Ok (ascii_of_wide w);
  scm_open := λ _ σ, (on_open_manager s, σ);
  svc_open := λ _ _ _ σ, (on_open_service s, σ);
  svc_status := λ _ σ, (on_status s, σ);
  svc_config := λ _ cb σ, (if cb =? 0 then on_config_size s else on_config s, σ);
  scm_enum := λ _ cb _ σ, (if cb =? 0 then on_enum_size s else on_enum s, σ);
  handle_closed := λ _ σ, (None, σ)
|}.

(** A healthy host with two services, answering for "Spooler". *)
Definition spooler_status : SERVICE_STATUS_PROCESS :=
  {| dwCurrentState := SERVICE_RUNNING; dwProcessId := 1234 |}.

Definition healthy : Script := {|
  on_open_manager := Ok tt;
  on_open_service := Ok tt;
  on_status := Ok spooler_status;
  on_config_size :=
    {| config_result := Fail ERROR_INSUFFICIENT_BUFFER;
       config_bytesNeeded := Some 512 |};
  on_config :=
    {| config_result :=
         Ok {| config_lpDisplayName := Some (wide_of_ascii "Print Spooler") |};
       config_bytesNeeded := Some 512 |};
  on_enum_size :=
    {| enum_result := Fail ERROR_MORE_DATA; enum_services := [];
       enum_bytesNeeded := Some 4096; enum_resumeHandle := None |};
  on_enum :=
    {| enum_result := Ok tt;
       enum_services :=
         [ {| lpServiceName := Some (wide_of_ascii "Spooler");
              lpDisplayName := Some (wide_of_ascii "Print Spooler");
              ServiceStatusProcess := spooler_status |};
           {| lpServiceName := Some (wide_of_ascii "W32Time");
              lpDisplayName := Some (wide_of_ascii "Windows Time");
              ServiceStatusProcess :=
                {| dwCurrentState := SERVICE_STOPPED; dwProcessId := 0 |} |} ];
       enum_bytesNeeded := Some 0; enum_resumeHandle := None |}
|}.

Definition with_open_manager (r : Reply unit) (s : Script) : Script :=
  {| on_open_manager := r; on_open_service := on_open_service s;
     on_status := on_status s; on_config_size := on_config_size s;
     on_config := on_config s; on_enum_size := on_enum_size s;
     on_enum := on_enum s |}.

Definition with_open_service (r : Reply unit) (s : Script) : Script :=
  {| on_open_manager := on_open_manager s; on_open_service := r;
     on_status := on_status s; on_config_size := on_config_size s;
     on_config := on_config s; on_enum_size := on_enum_size s;
     on_enum := on_enum s |}.

Definition with_status (r : Reply SERVICE_STATUS_PROCESS) (s : Script) : Script :=
  {| on_open_manager := on_open_manager s; on_open_service := on_open_service s;
     on_status := r; on_config_size := on_config_size s;
     on_config := on_config s; on_enum_size := on_enum_size s;
     on_enum := on_enum s |}.

Definition with_config (r : ConfigReply) (s : Script) : Script :=
  {| on_open_manager := on_open_manager s; on_open_service := on_open_service s;
     on_status := on_status s; on_config_size := on_config_size s;
     on_config := r; on_enum_size := on_enum_size s;
     on_enum := on_enum s |}.

Definition with_enum (r : EnumReply) (s : Script) : Script :=
  {| on_open_manager := on_open_manager s; on_open_service := on_open_service s;
     on_status := on_status s; on_config_size := on_config_size s;
     on_config := on_config s; on_enum_size := on_enum_size s;
     on_enum := r |}.


(** ** What the platform answers along a call

    The answers a platform in state [σ], with handles [H] already open,
    gives to the calls an operation makes for the name [nameUtf8], in the
    order the source makes them. *)

Section Answers.
Context {S : Type} (P : Platform S).
Context (σ : S) (H : gset SC_HANDLE) (nameUtf8 : string).

Definition manager_answer : Reply unit * S := scm_open P manager_rights σ.
Definition manager_handle : SC_HANDLE := fresh H.
Definition service_answer : Reply unit * S :=
  svc_open P manager_handle (mb2wc P (c_str nameUtf8)) service_rights
           (manager_answer.2).
Definition service_handle : SC_HANDLE := fresh ({[manager_handle]} ∪ H).
Definition status_answer : Reply SERVICE_STATUS_PROCESS * S :=
  svc_status P service_handle (service_answer.2).
Definition config_size_answer : ConfigReply * S :=
  svc_config P service_handle 0 (status_answer.2).
Definition configBytes : DWORD :=
  default 0 (config_bytesNeeded (config_size_answer.1)).
Definition config_answer : ConfigReply * S :=
  svc_config P service_handle configBytes (config_size_answer.2).
Definition enum_size_answer : EnumReply * S :=
  scm_enum P manager_handle 0 0 (manager_answer.2).
Definition bytesNeeded : DWORD :=
  default 0 (enum_bytesNeeded (enum_size_answer.1)).
Definition resumeHandle : DWORD :=
  default 0 (enum_resumeHandle (enum_size_answer.1)).
Definition enum_answer : EnumReply * S :=
  scm_enum P manager_handle bytesNeeded resumeHandle (enum_size_answer.2).

(** The display-name lookup fails when the size call leaves no size or
    the call that fills the buffer returns FALSE. *)
Definition config_query_fails : Prop :=
  configBytes = 0 ∨ ∃ code, config_result (config_answer.1) = Fail code.
End Answers.

(** The name argument, when there is one and it is a string. *)
Definition name_argument (info : CallbackInfo) : option string :=
  match info with
  | JsString nameUtf8 :: _ => Some nameUtf8
  | _ => None
  end.

(** The text [WideToUtf8] yields for a wide string of the platform. *)
Definition utf8_of {S} (P : Platform S) (wide : LPWSTR) : string :=
  match wide with
  | None => ""
  | Some w => match wc2mb P w with Ok text => text | Fail _ => "" end
  end.

(** The last-error cell after [WideToUtf8]: a failed conversion stores its
    code. *)
Definition error_after_conversion {S} (P : Platform S) (wide : LPWSTR)
    (err : DWORD) : DWORD :=
  match wide with
  | None => err
  | Some w => match wc2mb P w with Ok _ => err | Fail code => code end
  end.

(** The calls that acquire a handle. *)
Definition is_open_call (c : Call) : bool :=
  match c with
  | CallOpenSCManagerW _ | CallOpenServiceW _ _ _ => true
  | _ => false
  end.

Definition is_conversion_call (c : Call) : bool :=
  match c with
  | CallMultiByteToWideChar _ _ | CallWideCharToMultiByte _ _ => true
  | _ => false
  end.

(** The seven state codes [StateToString] knows. *)
Definition known_states : list DWORD :=
  [SERVICE_STOPPED; SERVICE_START_PENDING; SERVICE_STOP_PENDING;
   SERVICE_RUNNING; SERVICE_CONTINUE_PENDING; SERVICE_PAUSE_PENDING;
   SERVICE_PAUSED].

(** A host whose service manager refuses the empty name. *)
Definition ERROR_INVALID_NAME : DWORD := 123.

Definition rejects_name : Script :=
  with_open_service (Fail ERROR_INVALID_NAME) healthy.

Definition no_such_service : Script :=
  with_open_service (Fail ERROR_SERVICE_DOES_NOT_EXIST) healthy.

(** Hosts that deny access to the service manager, or to the service. *)
Definition manager_denies : Script :=
  with_open_manager (Fail ERROR_ACCESS_DENIED) healthy.

Definition service_denies : Script :=
  with_open_service (Fail ERROR_ACCESS_DENIED) healthy.

(** A host on which the status query is made to fail. *)
Definition status_fails : Script :=
  with_status (Fail ERROR_SHUTDOWN_IN_PROGRESS) healthy.

(** A host on which filling the configuration buffer is made to fail. *)
Definition config_fails : Script :=
  with_config {| config_result := Fail ERROR_ACCESS_DENIED;
                 config_bytesNeeded := None |} healthy.

(** A host whose service list grew between the two enumeration calls. *)
Definition enum_fails : Script :=
  with_enum {| enum_result := Fail ERROR_MORE_DATA; enum_services := [];
               enum_bytesNeeded := Some 8192; enum_resumeHandle := None |}
            healthy.

(** The object [ListServices] builds for one enumeration entry. *)
Definition record_of {S} (P : Platform S) (svc : ENUM_SERVICE_STATUS_PROCESSW)
  : JsValue :=
  JsObject
    (<["exists" := JsBoolean true]>
       (<["pid" := JsNumber (Z.of_N (dwProcessId (ServiceStatusProcess svc)))]>
          (<["state" := JsString (StateToString
                                    (dwCurrentState (ServiceStatusProcess svc)))]>
             (<["displayName" := JsString (utf8_of P (lpDisplayName svc))]>
                (<["name" := JsString (utf8_of P (lpServiceName svc))]> ∅))))).

(** The errors and records of the two named operations, as the source
    spells them. *)
Definition manager_error (err : DWORD) : JsError :=
  if err =? ERROR_ACCESS_DENIED
  then Error "Access denied opening Service Control Manager"
  else Error ("Failed to open Service Control Manager (error "
                +:+ to_string err +:+ ")").

Definition service_error (nameUtf8 : string) (err : DWORD) : JsError :=
  if err =? ERROR_ACCESS_DENIED
  then Error ("Access denied opening service '" +:+ nameUtf8 +:+ "'")
  else Error ("Failed to open service '" +:+ nameUtf8
                +:+ "' (error " +:+ to_string err +:+ ")").

Definition status_error (err : DWORD) : JsError :=
  Error ("QueryServiceStatusEx failed (error " +:+ to_string err +:+ ")").

Definition enum_error (err : DWORD) : JsError :=
  Error ("EnumServicesStatusExW failed (error " +:+ to_string err +:+ ")").

Definition not_found_record (nameUtf8 : string) : gmap string JsValue :=
  <["pid" := JsNumber 0]>
    (<["state" := JsString "not_found"]>
       (<["exists" := JsBoolean false]>
          (<["name" := JsString nameUtf8]> ∅))).

Definition found_record (nameUtf8 : string) (ssp : SERVICE_STATUS_PROCESS)
    (displayName : string) : gmap string JsValue :=
  <["displayName" := JsString displayName]>
    (<["pid" := JsNumber (Z.of_N (dwProcessId ssp))]>
       (<["state" := JsString (StateToString (dwCurrentState ssp))]>
          (<["exists" := JsBoolean true]>
             (<["name" := JsString nameUtf8]> ∅)))).

(** The display name [GetServiceStatus] ends up with. *)
Definition display_name_of {S} (P : Platform S) (σ : S) (H : gset SC_HANDLE)
    (nameUtf8 : string) : string :=
  if 0 <? configBytes P σ H nameUtf8 then
    match config_result (config_answer P σ H nameUtf8).1 with
    | Ok pConfig => utf8_of P (config_lpDisplayName pConfig)
    | Fail _ => ""
    end
  else "".

(** The last-error cell at the end of the display-name lookup of
    [GetServiceStatus], after a status query that failed with [err]: each
    later call that fails has stored its own code since. *)
Definition reported_code {S} (P : Platform S) (σ : S) (H : gset SC_HANDLE)
    (nameUtf8 : string) (err : DWORD) : DWORD :=
  let after_size :=
    match config_result (config_size_answer P σ H nameUtf8).1 with
    | Ok _ => err
    | Fail code => code
    end in
  if 0 <? configBytes P σ H nameUtf8 then
    match config_result (config_answer P σ H nameUtf8).1 with
    | Ok pConfig =>
        error_after_conversion P (config_lpDisplayName pConfig) after_size
    | Fail code => code
    end
  else after_size.

(** The handle-acquiring calls of a named operation. *)
Definition expected_opens {S} (P : Platform S) (σ : S) (H : gset SC_HANDLE)
    (nameUtf8 : string) : list Call :=
  CallOpenSCManagerW manager_rights ::
  match (manager_answer P σ).1 with
  | Ok _ => [CallOpenServiceW (manager_handle H) (mb2wc P (c_str nameUtf8))
                              service_rights]
  | Fail _ => []
  end.

(** ** The module initialiser and the host *)

(** What [exports] can hold: one of the three native functions wrapped by
    [Napi::Function::New], or any other value. *)
Inductive NativeFunction :=
  | NativeServiceExists
  | NativeGetServiceStatus
  | NativeListServices.

Inductive Export :=
  | ExportFunction (f : NativeFunction)
  | ExportValue (v : JsValue).

(** [Init(env, exports)]; [WIN32] says whether [_WIN32] is defined where the
    addon is compiled. *)
Definition Init (WIN32 : bool) (exports : gmap string Export)
  : gmap string Export :=
  if WIN32 then
    let exports :=
      <["serviceExists" := ExportFunction NativeServiceExists]> exports in
    let exports :=
      <["getServiceStatus" := ExportFunction NativeGetServiceStatus]> exports in
    let exports :=
      <["listServices" := ExportFunction NativeListServices]> exports in
    exports
  else exports.

(** The C++ function behind a wrapped native function. *)
Definition native_body {S} (P : Platform S) (f : NativeFunction)
  : CallbackInfo → M S JsValue :=
  match f with
  | NativeServiceExists => ServiceExists P
  | NativeGetServiceStatus => GetServiceStatus P
  | NativeListServices => ListServices P
  end.

(** The host calling a native function: it runs the body and, on return,
    takes the pending exception (if any) out of the environment. *)
Definition host_call {S} (P : Platform S) (f : NativeFunction)
    (info : CallbackInfo) (w : World S) : Completion * World S :=
  let r := native_body P f info w in
  (completion r,
   mkWorld (platform_state r.2) (last_error r.2) (open_handles r.2)
           (calls r.2) None).

(** A run of calls, one after the other. *)
Fixpoint host_calls {S} (P : Platform S)
    (invocations : list (NativeFunction * CallbackInfo)) (w : World S)
  : World S :=
  match invocations with
  | [] => w
  | (f, info) :: rest => host_calls P rest (host_call P f info w).2
  end.

(** ** The call logs, spelled out *)

(** The calls [WideToUtf8] makes for one wide string. *)
Definition conversion_calls {S} (P : Platform S) (wide : LPWSTR) : list Call :=
  match wide with
  | None => []
  | Some w =>
      match wc2mb P w with
      | Ok text =>
          [CallWideCharToMultiByte w 0;
           CallWideCharToMultiByte w (Z.of_nat (String.length text) + 1)]
      | Fail _ => [CallWideCharToMultiByte w 0]
      end
  end.

(** The two calls that convert the name argument. *)
Definition name_calls {S} (P : Platform S) (nameUtf8 : string) : list Call :=
  [CallMultiByteToWideChar (c_str nameUtf8) 0;
   CallMultiByteToWideChar (c_str nameUtf8)
     (Z.of_nat (length (mb2wc P (c_str nameUtf8))) + 1)].

(** The conversions [ListServices] makes for the entries of its buffer. *)
Definition listing_calls {S} (P : Platform S)
    (services : list ENUM_SERVICE_STATUS_PROCESSW) : list Call :=
  flat_map (λ svc, conversion_calls P (lpServiceName svc)
                     ++ conversion_calls P (lpDisplayName svc)) services.

(** The calls of the display-name lookup of [GetServiceStatus]. *)
Definition config_calls {S} (P : Platform S) (σ : S) (H : gset SC_HANDLE)
    (nameUtf8 : string) : list Call :=
  let h := service_handle H in
  CallQueryServiceConfigW h 0 ::
  if 0 <? configBytes P σ H nameUtf8 then
    CallQueryServiceConfigW h (configBytes P σ H nameUtf8) ::
    match config_result (config_answer P σ H nameUtf8).1 with
    | Ok pConfig => conversion_calls P (config_lpDisplayName pConfig)
    | Fail _ => []
    end
  else [].

(** The platform state when the lookup is over. *)
Definition state_after_config {S} (P : Platform S) (σ : S)
    (H : gset SC_HANDLE) (nameUtf8 : string) : S :=
  if 0 <? configBytes P σ H nameUtf8
  then (config_answer P σ H nameUtf8).2
  else (config_size_answer P σ H nameUtf8).2.

(** The last-error cell and the platform state once a handle is closed,
    from what they were before. *)
Definition after_close {S} (P : Platform S) (h : SC_HANDLE) (x : DWORD * S)
  : DWORD * S :=
  let a := handle_closed P h x.2 in (default x.1 a.1, a.2).

(** The code [GetServiceStatus] reads after a status query that failed
    with [err]: what the cell holds after the lookup and the two closes. *)
Definition status_thrown_code {S} (P : Platform S) (σ : S)
    (H : gset SC_HANDLE) (nameUtf8 : string) (err : DWORD) : DWORD :=
  (after_close P (manager_handle H)
     (after_close P (service_handle H)
        (reported_code P σ H nameUtf8 err,
         state_after_config P σ H nameUtf8))).1.

(** The code [ListServices] reads after a second enumeration call that
    failed with [err]: what the cell holds after the close. *)
Definition enum_thrown_code {S} (P : Platform S) (σ : S) (H : gset SC_HANDLE)
    (err : DWORD) : DWORD :=
  (after_close P (manager_handle H) (err, (enum_answer P σ H).2)).1.

(** Which API a logged call belongs to. *)
Definition is_service_call (c : Call) : bool :=
  match c with
  | CallOpenServiceW _ _ _ | CallQueryServiceStatusEx _
  | CallQueryServiceConfigW _ _ => true
  | _ => false
  end.

Definition is_close_call (c : Call) : bool :=
  match c with CallCloseServiceHandle _ => true | _ => false end.

(** A host whose service manager cannot be reached. *)
Definition RPC_S_SERVER_UNAVAILABLE : DWORD := 1722.

Definition manager_unreachable : Script :=
  with_open_manager (Fail RPC_S_SERVER_UNAVAILABLE) healthy.

(** A host on which no wide string converts. *)
Definition ERROR_NO_UNICODE_TRANSLATION : DWORD := 1113.

Definition unconvertible : Platform unit := {|
  mb2wc := mb2wc (scripted healthy);
  wc2mb := λ _, Fail ERROR_NO_UNICODE_TRANSLATION;
  scm_open := scm_open (scripted healthy);
  svc_open := svc_open (scripted healthy);
  svc_status := svc_status (scripted healthy);
  svc_config := svc_config (scripted healthy);
  scm_enum := scm_enum (scripted healthy);
  handle_closed := handle_closed (scripted healthy)
|}.

(** A scripted host on which a close that succeeds resets the last-error
    cell to ERROR_SUCCESS. *)
Definition ERROR_SUCCESS : DWORD := 0.

Definition close_resets (s : Script) : Platform unit := {|
  mb2wc := mb2wc (scripted s);
  wc2mb := wc2mb (scripted s);
  scm_open := scm_open (scripted s);
  svc_open := svc_open (scripted s);
  svc_status := svc_status (scripted s);
  svc_config := svc_config (scripted s);
  scm_enum := scm_enum (scripted s);
  handle_closed := λ _ σ, (Some ERROR_SUCCESS, σ)
|}.

(** A host that lists a service whose display name is a NULL pointer. *)
Definition unnamed_entry : Script :=
  with_enum {| enum_result := Ok tt;
               enum_services :=
                 [ {| lpServiceName := Some (wide_of_ascii "Spooler");
                      lpDisplayName := None;
                      ServiceStatusProcess := spooler_status |} ];
               enum_bytesNeeded := Some 0; enum_resumeHandle := None |}
            healthy.

(** A host whose configuration record has no display name. *)
Definition nameless : Script :=
  with_config {| config_result := Ok {| config_lpDisplayName := None |};
                 config_bytesNeeded := Some 512 |} healthy.

(** A wide string [WideToUtf8] gets no text from: a NULL pointer, or one
    whose conversion fails. *)
Definition unreadable {S} (P : Platform S) (wide : LPWSTR) : Prop :=
  wide = None ∨ ∃ w code, wide = Some w ∧ wc2mb P w = Fail code.

(** * Proofs *)

Set Warnings "-clear-no-such-hyp".

Section Steps.
Context {S : Type} (P : Platform S).

Lemma close_open h σ e (H : gset SC_HANDLE) cs px :
  h ∈ H →
  CloseServiceHandle P h (mkWorld σ e H cs px) =
    (true, mkWorld (handle_closed P h σ).2
                   (default e (handle_closed P h σ).1) (H ∖ {[h]})
                   (cs ++ [CallCloseServiceHandle h]) px).
Proof.
  intros Hh. unfold CloseServiceHandle. cbn.
  rewrite decide_True by done. reflexivity.
Qed.

Lemma fresh_twice (H : gset SC_HANDLE) :
  (fresh H ∉ H) ∧ (fresh ({[fresh H]} ∪ H) ∉ H)
  ∧ fresh ({[fresh H]} ∪ H) ≠ fresh H.
Proof.
  pose proof (is_fresh H). pose proof (is_fresh ({[fresh H]} ∪ H)). set_solver.
Qed.

(** A successful open really adds a handle that was not open. *)
Lemma OpenSCManagerW_acquires access σ e (H : gset SC_HANDLE) cs px h w :
  OpenSCManagerW P access (mkWorld σ e H cs px) = (Some h, w) →
  (h ∉ H) ∧ open_handles w = {[h]} ∪ H.
Proof.
  unfold OpenSCManagerW, grant. cbn.
  destruct (scm_open P access σ) as [[[]|c] σ']; cbn; [|discriminate].
  intros [= <- <-]. split; [apply is_fresh | reflexivity].
Qed.
End Steps.

Ltac unfold_calls :=
  unfold manager_open_failed,
    OpenSCManagerW, OpenServiceW, QueryServiceStatusEx, QueryServiceConfigW,
    EnumServicesStatusExW, GetLastError, ThrowAsJavaScriptException,
    grant, settle, succeeded,
    bind, ret, log, with_state, SetLastError, with_handles, entry in *.

Ltac unfold_conversions :=
  unfold widen, WideToUtf8, MultiByteToWideChar, WideCharToMultiByte in *;
  unfold_calls.

Ltac unfold_answers :=
  unfold config_query_fails, enum_answer, resumeHandle, bytesNeeded,
    enum_size_answer, config_answer, configBytes,
    config_size_answer, status_answer, service_handle, service_answer,
    manager_handle, manager_answer, manager_rights, service_rights in *.

Ltac reduce :=
  cbn -[fresh N.lor N.eqb N.ltb String.append to_string take
        union singleton difference elem_of decide insert empty lookup
        CloseServiceHandle widen WideToUtf8 fill_array] in *.

(** Name the answer of the next platform call whose state is known. *)
Ltac answer :=
  match goal with
  | |- context [scm_open ?P ?a ?s] =>
      is_var s; let r := fresh "r" in let s' := fresh "σ" in
      destruct (scm_open P a s) as [r s'] eqn:?
  | |- context [svc_open ?P ?h ?n ?a ?s] =>
      is_var s; let r := fresh "r" in let s' := fresh "σ" in
      destruct (svc_open P h n a s) as [r s'] eqn:?
  | |- context [svc_status ?P ?h ?s] =>
      is_var s; let r := fresh "r" in let s' := fresh "σ" in
      destruct (svc_status P h s) as [r s'] eqn:?
  | |- context [svc_config ?P ?h ?n ?s] =>
      is_var s; let r := fresh "r" in let s' := fresh "σ" in
      destruct (svc_config P h n s) as [r s'] eqn:?
  | |- context [scm_enum ?P ?h ?n ?m ?s] =>
      is_var s; let r := fresh "r" in let s' := fresh "σ" in
      destruct (scm_enum P h n m s) as [r s'] eqn:?
  end; reduce.

Ltac close_handles :=
  repeat (rewrite close_open by set_solver; reduce).

Section Conversion.
Context {S : Type} (P : Platform S).

Lemma substring_all (s : string) : String.substring 0 (String.length s) s = s.
Proof. induction s as [|c s IH]; cbn; [reflexivity | by rewrite IH]. Qed.

Lemma widen_run nameUtf8 σ e (H : gset SC_HANDLE) cs px :
  let wname := mb2wc P (c_str nameUtf8) in
  widen P nameUtf8 (mkWorld σ e H cs px)
  = (wname,
     mkWorld σ e H
       (cs ++ [CallMultiByteToWideChar (c_str nameUtf8) 0;
               CallMultiByteToWideChar (c_str nameUtf8)
                 (Z.of_nat (length wname) + 1)]) px).
Proof.
  intros wname. unfold_conversions. reduce. fold wname.
  replace (Z.of_nat (length wname) + 1 =? 0)%Z with false
    by (symmetry; apply Z.eqb_neq; lia).
  replace (Z.to_nat (Z.of_nat (length wname) + 1 - 1)) with (length wname)
    by lia.
  rewrite firstn_all, <- app_assoc. reflexivity.
Qed.

Lemma WideToUtf8_run wide σ e (H : gset SC_HANDLE) cs px :
  ∃ cs',
    WideToUtf8 P wide (mkWorld σ e H cs px)
    = (utf8_of P wide,
       mkWorld σ (error_after_conversion P wide e) H (cs ++ cs') px)
    ∧ forallb is_conversion_call cs' = true.
Proof.
  destruct wide as [w|]; cbn.
  2:{ exists []. by rewrite app_nil_r. }
  unfold_conversions. reduce.
  destruct (wc2mb P w) as [text|c]; reduce.
  - destruct (Z.leb_spec (Z.of_nat (String.length text) + 1) 0); [lia|].
    replace (Z.of_nat (String.length text) + 1 =? 0)%Z with false
      by (symmetry; apply Z.eqb_neq; lia).
    replace (Z.to_nat (Z.of_nat (String.length text) + 1 - 1))
      with (String.length text) by lia.
    reduce. rewrite substring_all. eexists [_; _].
    rewrite <- app_assoc. split; reflexivity.
  - eexists [_]. split; reflexivity.
Qed.

Lemma service_object_run svc σ e (H : gset SC_HANDLE) cs px :
  ∃ e' cs',
    service_object P svc (mkWorld σ e H cs px)
    = (record_of P svc, mkWorld σ e' H (cs ++ cs') px)
    ∧ forallb is_conversion_call cs' = true.
Proof.
  unfold service_object, bind, ret.
  destruct (WideToUtf8_run (lpServiceName svc) σ e H cs px)
    as (cs1 & -> & F1).
  destruct (WideToUtf8_run (lpDisplayName svc) σ
              (error_after_conversion P (lpServiceName svc) e) H (cs ++ cs1) px)
    as (cs2 & -> & F2).
  eexists _, (cs1 ++ cs2). rewrite app_assoc. split; [reflexivity|].
  rewrite forallb_app, F1, F2. reflexivity.
Qed.

Lemma fill_array_run services indices :
  ∀ arr σ e (H : gset SC_HANDLE) cs px,
  ∃ e' cs',
    fill_array P services indices arr (mkWorld σ e H cs px)
    = (foldl (λ arr i, <[i := record_of P (services !!! i)]> arr) arr indices,
       mkWorld σ e' H (cs ++ cs') px)
    ∧ forallb is_conversion_call cs' = true.
Proof.
  induction indices as [|i rest IH]; intros arr σ e H cs px; cbn [fill_array foldl].
  - exists e, []. by rewrite app_nil_r.
  - unfold bind.
    destruct (service_object_run (services !!! i) σ e H cs px)
      as (e1 & cs1 & -> & F1).
    destruct (IH (<[i := record_of P (services !!! i)]> arr) σ e1 H (cs ++ cs1) px)
      as (e2 & cs2 & -> & F2).
    exists e2, (cs1 ++ cs2). rewrite app_assoc. split; [reflexivity|].
    rewrite forallb_app, F1, F2. reflexivity.
Qed.

Lemma filled_from (services : list ENUM_SERVICE_STATUS_PROCESSW) n :
  ∀ i, (i + n = length services)%nat →
  foldl (λ arr j, <[j := record_of P (services !!! j)]> arr)
        ((record_of P <$> take i services) ++ replicate n JsUndefined)
        (seq i n)
  = record_of P <$> services.
Proof.
  induction n as [|n IH]; intros i Hn; cbn [seq foldl replicate].
  - rewrite app_nil_r, take_ge by lia. reflexivity.
  - rewrite insert_app_r_alt by (rewrite length_fmap, length_take; lia).
    rewrite length_fmap, length_take.
    replace (i - i `min` length services)%nat with 0%nat by lia.
    cbn [insert list_insert].
    assert (services !! i = Some (services !!! i)) as Hi
      by (apply list_lookup_lookup_total_lt; lia).
    rewrite <- (IH (Datatypes.S i)) by lia.
    rewrite (take_S_r _ _ _ Hi), fmap_app, <- app_assoc. reflexivity.
Qed.

Lemma filled (services : list ENUM_SERVICE_STATUS_PROCESSW) :
  let n := length services in
  foldl (λ arr j, <[j := record_of P (services !!! j)]> arr)
        (replicate n JsUndefined) (seq 0 n)
  = record_of P <$> services.
Proof. apply (filled_from services (length services) 0%nat). lia. Qed.
End Conversion.

(** Split on whatever the next branch of the code waits for. *)
Ltac branch :=
  match goal with
  | r : Reply _ |- _ => destruct r as [?|?]
  | r : ConfigReply |- _ => destruct r as [? ?]
  | r : EnumReply |- _ => destruct r as [? ? ? ?]
  | u : unit |- _ => destruct u
  | o : option _ |- _ => destruct o as [?|]
  | o : LPWSTR |- _ => destruct o as [?|]
  | c : QUERY_SERVICE_CONFIGW |- _ => destruct c as [?]
  end; reduce.

Ltac decide_test :=
  match goal with
  | |- context [if ?b then _ else _] => destruct b eqn:?
  end; reduce.

Ltac convert :=
  match goal with
  | |- context [WideToUtf8 ?P ?x (mkWorld ?s ?e ?H ?cs ?px)] =>
      destruct (WideToUtf8_run P x s e H cs px) as (? & -> & ?)
  | |- context [widen ?P ?x (mkWorld ?s ?e ?H ?cs ?px)] =>
      rewrite (widen_run P x s e H cs px)
  end; reduce.

Ltac run :=
  unfold_calls; reduce;
  repeat first [ rewrite close_open by set_solver; reduce
               | convert | branch | answer; simplify_eq | decide_test ].

Section Guard.
Lemma guard_rejects info :
  name_argument info = None →
  (Length info <? 1)%Z || negb (IsString (arg info 0)) = true.
Proof.
  destruct info as [|v rest]; [reflexivity|]. intros Hn.
  destruct v; try discriminate Hn; cbn; apply orb_true_r.
Qed.

Lemma guard_accepts info nameUtf8 :
  name_argument info = Some nameUtf8 →
  (Length info <? 1)%Z || negb (IsString (arg info 0)) = false
  ∧ Utf8Value (arg info 0) = nameUtf8.
Proof.
  destruct info as [|v rest]; [discriminate|]. intros Hn.
  destruct v; try discriminate Hn. injection Hn as ->.
  split; [|reflexivity]. apply orb_false_intro; [|reflexivity].
  apply Z.ltb_ge. unfold Length. cbn [length]. lia.
Qed.

Lemma no_opens_in_conversions cs :
  forallb is_conversion_call cs = true → List.filter is_open_call cs = [].
Proof.
  induction cs as [|c cs IH]; [reflexivity|]. cbn.
  intros [Hc Hcs]%andb_prop. rewrite (IH Hcs). by destruct c.
Qed.
End Guard.

Ltac opens_only :=
  repeat rewrite List.filter_app;
  repeat match goal with
    | F : forallb is_conversion_call ?cs = true |- _ =>
        rewrite (no_opens_in_conversions cs F); clear F
    end;
  reflexivity.

Section Tables.
Context {S : Type} (P : Platform S).
Context (info : CallbackInfo) (σ : S) (e : DWORD) (H : gset SC_HANDLE).

Lemma ServiceExists_rejects :
  name_argument info = None →
  ServiceExists P info (entry σ e H)
  = (JsNull, mkWorld σ e H []
               (Some (TypeError "Service name (string) expected"))).
Proof.
  intros Hn. unfold ServiceExists. rewrite (guard_rejects _ Hn). reflexivity.
Qed.

Lemma GetServiceStatus_rejects :
  name_argument info = None →
  GetServiceStatus P info (entry σ e H)
  = (JsNull, mkWorld σ e H []
               (Some (TypeError "Service name (string) expected"))).
Proof.
  intros Hn. unfold GetServiceStatus. rewrite (guard_rejects _ Hn). reflexivity.
Qed.

Lemma ServiceExists_table nameUtf8 :
  name_argument info = Some nameUtf8 →
  let r := ServiceExists P info (entry σ e H) in
  open_handles r.2 = H
  ∧ List.filter is_open_call (calls r.2) = expected_opens P σ H nameUtf8
  ∧ completion r =
      match (manager_answer P σ).1 with
      | Fail err => Thrown (manager_error err)
      | Ok _ =>
          match (service_answer P σ H nameUtf8).1 with
          | Fail err =>
              if err =? ERROR_SERVICE_DOES_NOT_EXIST
              then Returned (JsBoolean false)
              else Thrown (service_error nameUtf8 err)
          | Ok _ => Returned (JsBoolean true)
          end
      end.
Proof.
  intros [Hg Hname]%guard_accepts. cbv zeta.
  destruct (fresh_twice H) as (F1 & F2 & F3).
  unfold ServiceExists, expected_opens, manager_error, service_error, completion.
  rewrite Hg, Hname. clear Hg Hname. unfold_answers.
  run; (split; [set_solver | split; [opens_only | reflexivity]]).
Qed.

Lemma GetServiceStatus_table nameUtf8 :
  name_argument info = Some nameUtf8 →
  let r := GetServiceStatus P info (entry σ e H) in
  open_handles r.2 = H
  ∧ List.filter is_open_call (calls r.2) = expected_opens P σ H nameUtf8
  ∧ match (manager_answer P σ).1 with
    | Fail err => completion r = Thrown (manager_error err)
    | Ok _ =>
        match (service_answer P σ H nameUtf8).1 with
        | Fail err =>
            completion r =
              if err =? ERROR_SERVICE_DOES_NOT_EXIST
              then Returned (JsObject (not_found_record nameUtf8))
              else Thrown (service_error nameUtf8 err)
        | Ok _ =>
            match (status_answer P σ H nameUtf8).1 with
            | Fail err =>
                completion r =
                  Thrown (status_error (status_thrown_code P σ H nameUtf8 err))
            | Ok ssp =>
                completion r =
                  Returned (JsObject (found_record nameUtf8 ssp
                                        (display_name_of P σ H nameUtf8)))
            end
        end
    end.
Proof.
  intros [Hg Hname]%guard_accepts. cbv zeta.
  destruct (fresh_twice H) as (F1 & F2 & F3).
  unfold GetServiceStatus, expected_opens, manager_error, service_error,
    status_error, not_found_record, found_record, display_name_of,
    status_thrown_code, after_close, state_after_config, reported_code,
    completion.
  rewrite Hg, Hname. clear Hg Hname. unfold_answers.
  unfold_calls; reduce. convert.
  answer. destruct r as [[]|err]; reduce.
  2:{ destruct (err =? _); (split; [done | split; [opens_only | done]]). }
  answer. destruct r as [[]|err]; reduce.
  2:{ close_handles.
      destruct (err =? _); [|destruct (err =? _)]; reduce;
        (split; [set_solver | split; [opens_only | done]]). }
  answer. answer.
  destruct (0 <? default 0 (config_bytesNeeded r0)) eqn:Hbytes; reduce.
  - answer. destruct r1 as [[pConfig|err] bytes]; reduce.
    + convert. close_handles.
      destruct r as [ssp|err]; reduce;
        (split; [set_solver | split; [opens_only | reflexivity]]).
    + close_handles.
      destruct r as [ssp|err']; reduce;
        (split; [set_solver | split; [opens_only | reflexivity]]).
  - close_handles.
    destruct r as [ssp|err]; reduce;
      (split; [set_solver | split; [opens_only | reflexivity]]).
Qed.

Lemma ListServices_table :
  let r := ListServices P info (entry σ e H) in
  let h := manager_handle H in
  open_handles r.2 = H
  ∧ match (manager_answer P σ).1 with
    | Fail err =>
        calls r.2 = [CallOpenSCManagerW manager_rights; CallGetLastError]
        ∧ completion r = Thrown (manager_error err)
    | Ok _ =>
        (∃ rest,
           calls r.2 =
             [CallOpenSCManagerW manager_rights;
              CallEnumServicesStatusExW h 0 0;
              CallEnumServicesStatusExW h (bytesNeeded P σ H)
                                        (resumeHandle P σ H);
              CallCloseServiceHandle h] ++ rest)
        ∧ match enum_result (enum_answer P σ H).1 with
          | Fail err =>
              r.1 = JsNull
              ∧ completion r = Thrown (enum_error (enum_thrown_code P σ H err))
          | Ok _ =>
              completion r =
                Returned (JsArray (record_of P <$>
                                     enum_services (enum_answer P σ H).1))
          end
    end.
Proof.
  cbv zeta. destruct (fresh_twice H) as (F1 & F2 & F3).
  unfold ListServices, manager_error, enum_error, enum_thrown_code, after_close,
    completion.
  unfold_answers. unfold_calls. reduce.
  answer. destruct r as [[]|err]; reduce.
  2:{ destruct (err =? _); auto. }
  answer. answer. close_handles.
  destruct r0 as [res services bytes resume]; reduce.
  destruct res as [[]|err]; reduce.
  2:{ split; [set_solver|]. split; [by exists [CallGetLastError]|]. auto. }
  rewrite Nat2N.id.
  match goal with
  | |- context [fill_array ?P ?sv ?ix ?arr (mkWorld ?s ?e ?H ?cs ?px)] =>
      destruct (fill_array_run P sv ix arr s e H cs px) as (e' & cs' & -> & F)
  end.
  reduce. rewrite filled.
  split; [set_solver|]. split; [by exists cs'|reflexivity].
Qed.
End Tables.

(** * The scenarios of the specification, run on the scripted host *)

Example spooler_exists :
  completion (ServiceExists (scripted healthy) [JsString "Spooler"]
                (entry tt 0 ∅))
  = Returned (JsBoolean true).
Proof. vm_compute. reflexivity. Qed.

Example spooler_status_record :
  completion (GetServiceStatus (scripted healthy) [JsString "Spooler"]
                (entry tt 0 ∅))
  = Returned (JsObject (found_record "Spooler" spooler_status "Print Spooler")).
Proof. vm_compute. reflexivity. Qed.

Example spooler_status_calls :
  calls (GetServiceStatus (scripted healthy) [JsString "Spooler"]
           (entry tt 0 ∅)).2
  = [CallMultiByteToWideChar "Spooler" 0; CallMultiByteToWideChar "Spooler" 8;
     CallOpenSCManagerW manager_rights;
     CallOpenServiceW 1%positive (wide_of_ascii "Spooler") service_rights;
     CallQueryServiceStatusEx 2%positive;
     CallQueryServiceConfigW 2%positive 0;
     CallQueryServiceConfigW 2%positive 512;
     CallWideCharToMultiByte (wide_of_ascii "Print Spooler") 0;
     CallWideCharToMultiByte (wide_of_ascii "Print Spooler") 14;
     CallCloseServiceHandle 2%positive; CallCloseServiceHandle 1%positive].
Proof. vm_compute. reflexivity. Qed.

Example no_such_service_record :
  completion (GetServiceStatus (scripted no_such_service)
                [JsString "NoSuchServiceXYZ123"] (entry tt 0 ∅))
  = Returned (JsObject (not_found_record "NoSuchServiceXYZ123")).
Proof. vm_compute. reflexivity. Qed.

Example healthy_listing :
  completion (ListServices (scripted healthy) [] (entry tt 0 ∅))
  = Returned (JsArray (record_of (scripted healthy)
                         <$> enum_services (on_enum healthy))).
Proof. vm_compute. reflexivity. Qed.

Example name_with_NUL_is_cut :
  c_str ("a" +:+ String Ascii.zero "b") = "a".
Proof. reflexivity. Qed.

(** * The claims *)

(** C1.  Whatever the platform answers, and on every path, each of the
    three operations returns with exactly the handles open that were open
    when it was entered: every session handle and service handle it
    acquired has been closed. *)
Theorem no_handle_leak {S} (P : Platform S) (info : CallbackInfo) (σ : S)
    (e : DWORD) (H : gset SC_HANDLE) :
  open_handles (ServiceExists P info (entry σ e H)).2 = H
  ∧ open_handles (GetServiceStatus P info (entry σ e H)).2 = H
  ∧ open_handles (ListServices P info (entry σ e H)).2 = H.
Proof.
  split; [|split].
  - destruct (name_argument info) as [nameUtf8|] eqn:Hn.
    + apply (ServiceExists_table P info σ e H nameUtf8 Hn).
    + by rewrite ServiceExists_rejects.
  - destruct (name_argument info) as [nameUtf8|] eqn:Hn.
    + apply (GetServiceStatus_table P info σ e H nameUtf8 Hn).
    + by rewrite GetServiceStatus_rejects.
  - apply (ListServices_table P info σ e H).
Qed.

(** C2.  When the session opens and the platform answers the service open
    with ERROR_SERVICE_DOES_NOT_EXIST, [ServiceExists] returns false and
    [GetServiceStatus] returns the record {name, exists: false,
    state: "not_found", pid: 0} without a displayName; neither leaves an
    exception pending. *)
Theorem not_registered_is_a_result {S} (P : Platform S) (nameUtf8 : string)
    (rest : CallbackInfo) (σ : S) (e : DWORD) (H : gset SC_HANDLE) :
  (manager_answer P σ).1 = Ok tt →
  (service_answer P σ H nameUtf8).1 = Fail ERROR_SERVICE_DOES_NOT_EXIST →
  completion (ServiceExists P (JsString nameUtf8 :: rest) (entry σ e H))
    = Returned (JsBoolean false)
  ∧ ∃ record : gmap string JsValue,
      completion (GetServiceStatus P (JsString nameUtf8 :: rest) (entry σ e H))
        = Returned (JsObject record)
      ∧ record !! "name" = Some (JsString nameUtf8)
      ∧ record !! "exists" = Some (JsBoolean false)
      ∧ record !! "state" = Some (JsString "not_found")
      ∧ record !! "pid" = Some (JsNumber 0)
      ∧ record !! "displayName" = None.
Proof.
  intros Hm Hs.
  destruct (ServiceExists_table P (JsString nameUtf8 :: rest) σ e H nameUtf8
              eq_refl) as (_ & _ & He).
  destruct (GetServiceStatus_table P (JsString nameUtf8 :: rest) σ e H nameUtf8
              eq_refl) as (_ & _ & Hg).
  rewrite Hm, Hs in He, Hg. cbn in He, Hg.
  split; [exact He|].
  exists (not_found_record nameUtf8). split; [exact Hg|].
  repeat split; reflexivity.
Qed.

Lemma not_registered_witness :
  (manager_answer (scripted no_such_service) tt).1 = Ok tt
  ∧ (service_answer (scripted no_such_service) tt ∅ "NoSuchServiceXYZ123").1
      = Fail ERROR_SERVICE_DOES_NOT_EXIST
  ∧ completion (ServiceExists (scripted no_such_service)
                  [JsString "NoSuchServiceXYZ123"] (entry tt 0 ∅))
      = Returned (JsBoolean false).
Proof.
  split; [reflexivity|]. split; [reflexivity|].
  apply (not_registered_is_a_result (scripted no_such_service)
           "NoSuchServiceXYZ123" [] tt 0 ∅); reflexivity.
Defined.

(** C3, as the code has it.  A call without a name argument, or with one
    that is not a string, is refused with the TypeError before anything
    else happens: no platform call is logged, no handle is opened and the
    platform is left as it was.  A string argument (the empty string
    included) passes the check: the session is opened with the manager
    rights and the operation never ends in a TypeError. *)
Theorem argument_validation {S} (P : Platform S) (info : CallbackInfo) (σ : S)
    (e : DWORD) (H : gset SC_HANDLE) :
  let exists_ := ServiceExists P info (entry σ e H) in
  let status := GetServiceStatus P info (entry σ e H) in
  match name_argument info with
  | None =>
      exists_ = (JsNull, mkWorld σ e H []
                           (Some (TypeError "Service name (string) expected")))
      ∧ status = (JsNull, mkWorld σ e H []
                            (Some (TypeError "Service name (string) expected")))
  | Some _ =>
      In (CallOpenSCManagerW manager_rights) (calls exists_.2)
      ∧ In (CallOpenSCManagerW manager_rights) (calls status.2)
      ∧ (∀ message, completion exists_ ≠ Thrown (TypeError message))
      ∧ (∀ message, completion status ≠ Thrown (TypeError message))
  end.
Proof.
  cbv zeta. destruct (name_argument info) as [nameUtf8|] eqn:Hn.
  - destruct (ServiceExists_table P info σ e H nameUtf8 Hn) as (_ & Oe & He).
    destruct (GetServiceStatus_table P info σ e H nameUtf8 Hn) as (_ & Og & Hg).
    assert (∀ cs, List.filter is_open_call cs = expected_opens P σ H nameUtf8 →
                  In (CallOpenSCManagerW manager_rights) cs) as Hin.
    { intros cs Hcs. apply (proj1 (filter_In is_open_call _ cs)).
      rewrite Hcs. left. reflexivity. }
    split; [by apply Hin|]. split; [by apply Hin|].
    unfold manager_error, service_error, status_error in *.
    split; intros message.
    + rewrite He. repeat case_match; discriminate.
    + destruct ((manager_answer P σ).1) as [[]|c0].
      2:{ rewrite Hg. destruct (c0 =? _); discriminate. }
      destruct ((service_answer P σ H nameUtf8).1) as [[]|c1].
      2:{ rewrite Hg. destruct (c1 =? _); [discriminate|].
          destruct (c1 =? _); discriminate. }
      destruct ((status_answer P σ H nameUtf8).1) as [ssp|c2].
      * rewrite Hg. discriminate.
      * rewrite Hg. discriminate.
  - split; [apply ServiceExists_rejects | apply GetServiceStatus_rejects]; done.
Qed.

(** C3, as stated, fails for the empty string: it is a string, so the
    session is opened and the name goes to the platform; the outcome is
    the platform's, not the TypeError. *)
Lemma empty_name_reaches_the_platform :
  let r := ServiceExists (scripted rejects_name) [JsString ""] (entry tt 0 ∅) in
  calls r.2 =
    [CallMultiByteToWideChar "" 0; CallMultiByteToWideChar "" 1;
     CallOpenSCManagerW manager_rights;
     CallOpenServiceW 1%positive [] service_rights;
     CallGetLastError; CallCloseServiceHandle 1%positive]
  ∧ completion r = Thrown (Error "Failed to open service '' (error 123)")
  ∧ ¬ (completion r = Thrown (TypeError "Service name (string) expected")
       ∧ calls r.2 = []).
Proof.
  cbv zeta. split; [vm_compute; reflexivity|].
  split; [vm_compute; reflexivity|].
  intros [_ Hcalls]. vm_compute in Hcalls. discriminate Hcalls.
Qed.

(** What [GetServiceStatus] throws after a failed status query, in
    general: the code in the last-error cell at the end,
    [status_thrown_code]. *)
Lemma status_failure_outcome {S} (P : Platform S) (nameUtf8 : string)
    (rest : CallbackInfo) (σ : S) (e : DWORD) (H : gset SC_HANDLE) (err : DWORD) :
  (manager_answer P σ).1 = Ok tt →
  (service_answer P σ H nameUtf8).1 = Ok tt →
  (status_answer P σ H nameUtf8).1 = Fail err →
  completion (GetServiceStatus P (JsString nameUtf8 :: rest) (entry σ e H))
    = Thrown (status_error (status_thrown_code P σ H nameUtf8 err)).
Proof.
  intros Hm Hs Hq.
  destruct (GetServiceStatus_table P (JsString nameUtf8 :: rest) σ e H nameUtf8
              eq_refl) as (_ & _ & Hg).
  by rewrite Hm, Hs, Hq in Hg.
Qed.

(** After the lookup the cell still holds the status query's own code only
    if no call of the lookup failed... *)
Lemma reported_code_kept {S} (P : Platform S) (σ : S) (H : gset SC_HANDLE)
    (nameUtf8 : string) (err : DWORD) (c : QUERY_SERVICE_CONFIGW) :
  config_result (config_size_answer P σ H nameUtf8).1 = Ok c →
  configBytes P σ H nameUtf8 = 0 →
  reported_code P σ H nameUtf8 err = err.
Proof. intros Hc Hz. unfold reported_code. by rewrite Hc, Hz. Qed.

(** ... and the size call's code as soon as that call fails, which is how a
    size call with an empty buffer ends. *)
Lemma reported_code_overwritten {S} (P : Platform S) (σ : S)
    (H : gset SC_HANDLE) (nameUtf8 : string) (err code : DWORD)
    (pConfig : QUERY_SERVICE_CONFIGW) :
  config_result (config_size_answer P σ H nameUtf8).1 = Fail code →
  config_result (config_answer P σ H nameUtf8).1 = Ok pConfig →
  config_lpDisplayName pConfig = None →
  reported_code P σ H nameUtf8 err = code.
Proof.
  intros Hc Hf Hd. unfold reported_code. rewrite Hc, Hf, Hd.
  by destruct (0 <? _).
Qed.

(** The code can be read back from the message. *)
Lemma append_char_inj (c : Ascii.ascii) (s1 s2 : string) :
  s1 +:+ String c "" = s2 +:+ String c "" → s1 = s2.
Proof.
  revert s2. induction s1 as [|a s1 IH]; intros [|b s2]; cbn; intros Heq.
  - reflexivity.
  - injection Heq as _ Heq. by destruct s2.
  - injection Heq as _ Heq. by destruct s1.
  - injection Heq as -> Heq. by rewrite (IH s2 Heq).
Qed.

Lemma error_code_is_readable (a b : DWORD) :
  (status_error a = status_error b → a = b)
  ∧ (enum_error a = enum_error b → a = b).
Proof.
  unfold status_error, enum_error, to_string.
  split; intros [= Heq%String.app_inj%append_char_inj]; by apply (inj pretty).
Qed.

(** C4, at a failing input.  On a host where the status query fails with
    ERROR_SHUTDOWN_IN_PROGRESS (1115) and the size call for the
    configuration fails with ERROR_INSUFFICIENT_BUFFER (122), as a size call
    does, the error [GetServiceStatus] throws carries 122: the last-error
    cell is read only after the configuration calls and the two closes. *)
Theorem status_failure_reports_a_later_code :
  (status_answer (scripted status_fails) tt ∅ "Spooler").1
    = Fail ERROR_SHUTDOWN_IN_PROGRESS
  ∧ config_result (config_size_answer (scripted status_fails) tt ∅ "Spooler").1
    = Fail ERROR_INSUFFICIENT_BUFFER
  ∧ completion (GetServiceStatus (scripted status_fails) [JsString "Spooler"]
                  (entry tt 0 ∅))
    = Thrown (Error "QueryServiceStatusEx failed (error 122)").
Proof. repeat split; vm_compute; reflexivity. Qed.

(** C5.  When both opens and the status query succeed and the
    display-name lookup fails, [GetServiceStatus] still returns the record,
    with the status fields of the query and the empty string as
    displayName. *)
Theorem display_name_is_best_effort {S} (P : Platform S) (nameUtf8 : string)
    (rest : CallbackInfo) (σ : S) (e : DWORD) (H : gset SC_HANDLE)
    (ssp : SERVICE_STATUS_PROCESS) :
  (manager_answer P σ).1 = Ok tt →
  (service_answer P σ H nameUtf8).1 = Ok tt →
  (status_answer P σ H nameUtf8).1 = Ok ssp →
  config_query_fails P σ H nameUtf8 →
  ∃ record : gmap string JsValue,
    completion (GetServiceStatus P (JsString nameUtf8 :: rest) (entry σ e H))
      = Returned (JsObject record)
    ∧ record !! "displayName" = Some (JsString "")
    ∧ record !! "name" = Some (JsString nameUtf8)
    ∧ record !! "exists" = Some (JsBoolean true)
    ∧ record !! "state" = Some (JsString (StateToString (dwCurrentState ssp)))
    ∧ record !! "pid" = Some (JsNumber (Z.of_N (dwProcessId ssp))).
Proof.
  intros Hm Hs Hq Hc.
  destruct (GetServiceStatus_table P (JsString nameUtf8 :: rest) σ e H nameUtf8
              eq_refl) as (_ & _ & Hg).
  rewrite Hm, Hs, Hq in Hg.
  assert (display_name_of P σ H nameUtf8 = "") as Hd.
  { unfold display_name_of. destruct Hc as [Hz | [code Hf]].
    - by rewrite Hz.
    - rewrite Hf. by destruct (0 <? _). }
  rewrite Hd in Hg.
  exists (found_record nameUtf8 ssp ""). split; [exact Hg|].
  repeat split; reflexivity.
Qed.

Lemma display_name_witness :
  config_query_fails (scripted config_fails) tt ∅ "Spooler"
  ∧ ∃ record : gmap string JsValue,
      completion (GetServiceStatus (scripted config_fails) [JsString "Spooler"]
                    (entry tt 0 ∅))
        = Returned (JsObject record)
      ∧ record !! "displayName" = Some (JsString "").
Proof.
  assert (config_query_fails (scripted config_fails) tt ∅ "Spooler") as Hc
    by (right; exists ERROR_ACCESS_DENIED; reflexivity).
  split; [exact Hc|].
  destruct (display_name_is_best_effort (scripted config_fails) "Spooler" []
              tt 0 ∅ spooler_status eq_refl eq_refl eq_refl Hc)
    as (record & Hr & Hd & _).
  exists record. split; assumption.
Defined.

(** C6.  [StateToString] is a total function: the seven known codes map
    to their names, every other code maps to "unknown", and whatever code a
    successful status query reports, [GetServiceStatus] returns a record
    whose state is the image of that code. *)
Theorem StateToString_total :
  StateToString <$> known_states
    = ["stopped"; "start_pending"; "stop_pending"; "running";
       "continue_pending"; "pause_pending"; "paused"]
  ∧ (∀ code : DWORD, code ∉ known_states → StateToString code = "unknown")
  ∧ (∀ {S} (P : Platform S) (nameUtf8 : string) (rest : CallbackInfo) (σ : S)
       (e : DWORD) (H : gset SC_HANDLE) (ssp : SERVICE_STATUS_PROCESS),
       (manager_answer P σ).1 = Ok tt →
       (service_answer P σ H nameUtf8).1 = Ok tt →
       (status_answer P σ H nameUtf8).1 = Ok ssp →
       ∃ record : gmap string JsValue,
         completion (GetServiceStatus P (JsString nameUtf8 :: rest)
                       (entry σ e H))
           = Returned (JsObject record)
         ∧ record !! "state"
           = Some (JsString (StateToString (dwCurrentState ssp)))).
Proof.
  split; [reflexivity|]. split.
  - intros code Hcode. unfold known_states in Hcode.
    repeat (apply not_elem_of_cons in Hcode as [?%N.eqb_neq Hcode]).
    unfold StateToString.
    repeat match goal with E : (_ =? _) = false |- _ => rewrite E; clear E end.
    reflexivity.
  - intros S P nameUtf8 rest σ e H ssp Hm Hs Hq.
    destruct (GetServiceStatus_table P (JsString nameUtf8 :: rest) σ e H
                nameUtf8 eq_refl) as (_ & _ & Hg).
    rewrite Hm, Hs, Hq in Hg. eexists. split; [exact Hg|]. reflexivity.
Qed.

Lemma StateToString_witness :
  (99 ∉ known_states)
  ∧ StateToString 99 = "unknown"
  ∧ ∃ record : gmap string JsValue,
      completion (GetServiceStatus (scripted healthy) [JsString "Spooler"]
                    (entry tt 0 ∅))
        = Returned (JsObject record)
      ∧ record !! "state" = Some (JsString "running").
Proof.
  assert (99 ∉ known_states) as Hcode.
  { unfold known_states. intros Hin.
    repeat (apply elem_of_cons in Hin as [Hin|Hin]; [discriminate Hin|]).
    by apply elem_of_nil in Hin. }
  split; [exact Hcode|]. split.
  - exact (proj1 (proj2 StateToString_total) 99 Hcode).
  - exact (proj2 (proj2 StateToString_total) unit (scripted healthy) "Spooler"
             [] tt 0 ∅ spooler_status eq_refl eq_refl eq_refl).
Defined.

(** C7.  A record returned by [GetServiceStatus] with exists = false has
    state "not_found", pid 0 and no displayName.  When [ListServices]
    returns, it returns an array with one object per entry of the
    enumeration buffer, in order; each has exists = true and, as
    displayName, the text of that entry's own lpDisplayName (so the first
    property holds of them too). *)
Theorem record_invariants {S} (P : Platform S) (info : CallbackInfo) (σ : S)
    (e : DWORD) (H : gset SC_HANDLE) :
  (∀ record : gmap string JsValue,
     completion (GetServiceStatus P info (entry σ e H))
       = Returned (JsObject record) →
     record !! "exists" = Some (JsBoolean false) →
     record !! "state" = Some (JsString "not_found")
     ∧ record !! "pid" = Some (JsNumber 0)
     ∧ record !! "displayName" = None)
  ∧ (∀ v : JsValue,
       completion (ListServices P info (entry σ e H)) = Returned v →
       ∃ items : list JsValue,
         v = JsArray items
         ∧ Forall2
             (λ (svc : ENUM_SERVICE_STATUS_PROCESSW) (item : JsValue),
                ∃ record : gmap string JsValue,
                  item = JsObject record
                  ∧ record !! "exists" = Some (JsBoolean true)
                  ∧ record !! "displayName"
                    = Some (JsString (utf8_of P (lpDisplayName svc))))
             (enum_services (enum_answer P σ H).1) items).
Proof.
  split.
  - intros record Hr Hx.
    destruct (name_argument info) as [nameUtf8|] eqn:Hn.
    2:{ rewrite (GetServiceStatus_rejects P info σ e H Hn) in Hr. discriminate. }
    destruct (GetServiceStatus_table P info σ e H nameUtf8 Hn) as (_ & _ & Hg).
    rewrite Hr in Hg. unfold manager_error, service_error in Hg.
    destruct ((manager_answer P σ).1) as [[]|c0].
    2:{ destruct (c0 =? _); discriminate. }
    destruct ((service_answer P σ H nameUtf8).1) as [[]|c1].
    + destruct ((status_answer P σ H nameUtf8).1) as [ssp|c2].
      * injection Hg as ->. discriminate Hx.
      * discriminate.
    + destruct (c1 =? ERROR_SERVICE_DOES_NOT_EXIST).
      * injection Hg as ->. repeat split; reflexivity.
      * destruct (c1 =? _); discriminate.
  - intros v Hv.
    destruct (ListServices_table P info σ e H) as (_ & Hl). cbv zeta in Hl.
    rewrite Hv in Hl. unfold manager_error in Hl.
    destruct ((manager_answer P σ).1) as [[]|c0].
    2:{ destruct Hl as [_ Hl]. destruct (c0 =? _); discriminate. }
    destruct Hl as [_ Hl].
    destruct (enum_result (enum_answer P σ H).1) as [[]|c1].
    2:{ destruct Hl as [_ Hl]. discriminate. }
    injection Hl as ->. eexists. split; [reflexivity|].
    apply Forall2_fmap_r, Forall_Forall2_diag, Forall_forall.
    intros svc _. eexists. split; [reflexivity|]. split; reflexivity.
Qed.

Lemma record_invariants_witness :
  (not_found_record "NoSuchServiceXYZ123" !! "state"
   = Some (JsString "not_found"))
  ∧ ∃ items : list JsValue,
      completion (ListServices (scripted healthy) [] (entry tt 0 ∅))
        = Returned (JsArray items)
      ∧ length items = 2%nat.
Proof.
  split.
  - apply (proj1 (record_invariants (scripted no_such_service)
                    [JsString "NoSuchServiceXYZ123"] tt 0 ∅)
             (not_found_record "NoSuchServiceXYZ123"));
      vm_compute; reflexivity.
  - assert (completion (ListServices (scripted healthy) [] (entry tt 0 ∅))
            = Returned (ListServices (scripted healthy) [] (entry tt 0 ∅)).1)
      as Hc by (vm_compute; reflexivity).
    destruct (proj2 (record_invariants (scripted healthy) [] tt 0 ∅) _ Hc)
      as (items & Hv & Hall).
    exists items. split.
    + rewrite Hc, Hv. reflexivity.
    + rewrite <- (Forall2_length _ _ _ Hall). reflexivity.
Defined.

(** C7, as stated, fails where the platform lists an entry whose display
    name is a NULL pointer: the element has exists = true, but its
    displayName is the empty string that [WideToUtf8] falls back to, not a
    populated one. *)
Lemma unnamed_entry_has_empty_displayName :
  ∃ record : gmap string JsValue,
    completion (ListServices (scripted unnamed_entry) [] (entry tt 0 ∅))
      = Returned (JsArray [JsObject record])
    ∧ record !! "exists" = Some (JsBoolean true)
    ∧ record !! "displayName" = Some (JsString "")
    ∧ ¬ ∃ text : string,
          text ≠ "" ∧ record !! "displayName" = Some (JsString text).
Proof.
  exists (<["exists" := JsBoolean true]>
            (<["pid" := JsNumber 1234]>
               (<["state" := JsString "running"]>
                  (<["displayName" := JsString ""]>
                     (<["name" := JsString "Spooler"]> ∅))))).
  split; [vm_compute; reflexivity|]. split; [reflexivity|].
  split; [reflexivity|].
  intros (text & Hne & Hl). apply Hne.
  assert (Some (JsString "") = Some (JsString text)) as [= <-]
    by (rewrite <- Hl; reflexivity).
  reflexivity.
Qed.

(** C8, at a failing input.  On a host where the session opens, the
    second enumeration call fails with ERROR_MORE_DATA (234) and the close
    of the session, which succeeds, resets the last-error cell, the error
    [ListServices] throws carries 0, not 234: the cell is read only after
    [CloseServiceHandle].  The two enumeration calls and the null result
    are as the claim has them. *)
Theorem enumeration_failure_reports_a_later_code :
  enum_result (enum_answer (close_resets enum_fails) tt ∅).1
    = Fail ERROR_MORE_DATA
  ∧ calls (ListServices (close_resets enum_fails) [] (entry tt 0 ∅)).2
    = [CallOpenSCManagerW manager_rights;
       CallEnumServicesStatusExW 1%positive 0 0;
       CallEnumServicesStatusExW 1%positive 4096 0;
       CallCloseServiceHandle 1%positive;
       CallGetLastError]
  ∧ (ListServices (close_resets enum_fails) [] (entry tt 0 ∅)).1 = JsNull
  ∧ completion (ListServices (close_resets enum_fails) [] (entry tt 0 ∅))
    = Thrown (Error "EnumServicesStatusExW failed (error 0)").
Proof. repeat split; vm_compute; reflexivity. Qed.

(** C9.  Access denied is reported by a different error for each
    resource: when [OpenSCManagerW] is denied, both named operations throw
    "Access denied opening Service Control Manager"; when the session
    opens and [OpenServiceW] is denied, both throw "Access denied opening
    service '<name>'"; the two never coincide. *)
Theorem access_denied_names_the_resource {S} (P : Platform S)
    (nameUtf8 : string) (rest : CallbackInfo) (σ : S) (e : DWORD)
    (H : gset SC_HANDLE) :
  let info := JsString nameUtf8 :: rest in
  let manager_denied :=
    Thrown (Error "Access denied opening Service Control Manager") in
  let service_denied :=
    Thrown (Error ("Access denied opening service '" +:+ nameUtf8 +:+ "'")) in
  ((manager_answer P σ).1 = Fail ERROR_ACCESS_DENIED →
   completion (ServiceExists P info (entry σ e H)) = manager_denied
   ∧ completion (GetServiceStatus P info (entry σ e H)) = manager_denied)
  ∧ ((manager_answer P σ).1 = Ok tt →
     (service_answer P σ H nameUtf8).1 = Fail ERROR_ACCESS_DENIED →
     completion (ServiceExists P info (entry σ e H)) = service_denied
     ∧ completion (GetServiceStatus P info (entry σ e H)) = service_denied)
  ∧ manager_denied ≠ service_denied.
Proof.
  cbv zeta.
  destruct (ServiceExists_table P (JsString nameUtf8 :: rest) σ e H nameUtf8
              eq_refl) as (_ & _ & He).
  destruct (GetServiceStatus_table P (JsString nameUtf8 :: rest) σ e H nameUtf8
              eq_refl) as (_ & _ & Hg).
  split; [|split].
  - intros Hm. rewrite Hm in He, Hg. split; assumption.
  - intros Hm Hs. rewrite Hm, Hs in He, Hg. split; assumption.
  - cbn. discriminate.
Qed.

Lemma access_denied_witness :
  completion (ServiceExists (scripted manager_denies) [JsString "Spooler"]
                (entry tt 0 ∅))
    = Thrown (Error "Access denied opening Service Control Manager")
  ∧ completion (GetServiceStatus (scripted service_denies) [JsString "Spooler"]
                  (entry tt 0 ∅))
    = Thrown (Error "Access denied opening service 'Spooler'").
Proof.
  split.
  - exact (proj1 (proj1 (access_denied_names_the_resource
                           (scripted manager_denies) "Spooler" [] tt 0 ∅)
                        eq_refl)).
  - exact (proj2 (proj1 (proj2 (access_denied_names_the_resource
                                  (scripted service_denies) "Spooler" [] tt 0 ∅))
                        eq_refl eq_refl)).
Defined.

(** C10, as stated, fails where both opens succeed and the status query
    does not: [ServiceExists] returns true while [GetServiceStatus] returns
    no record at all. *)
Lemma exists_true_but_status_throws :
  let exists_ :=
    completion (ServiceExists (scripted status_fails) [JsString "Spooler"]
                  (entry tt 0 ∅)) in
  let status :=
    completion (GetServiceStatus (scripted status_fails) [JsString "Spooler"]
                  (entry tt 0 ∅)) in
  exists_ = Returned (JsBoolean true)
  ∧ status = Thrown (Error "QueryServiceStatusEx failed (error 122)")
  ∧ ¬ (exists_ = Returned (JsBoolean true) ↔
       ∃ record : gmap string JsValue,
         status = Returned (JsObject record)
         ∧ record !! "exists" = Some (JsBoolean true)).
Proof.
  cbv zeta.
  assert (completion (ServiceExists (scripted status_fails) [JsString "Spooler"]
                        (entry tt 0 ∅)) = Returned (JsBoolean true)) as He
    by (vm_compute; reflexivity).
  assert (completion (GetServiceStatus (scripted status_fails)
                        [JsString "Spooler"] (entry tt 0 ∅))
          = Thrown (Error "QueryServiceStatusEx failed (error 122)")) as Hg
    by (vm_compute; reflexivity).
  split; [exact He|]. split; [exact Hg|].
  intros [Hto _]. destruct (Hto He) as (record & Hr & _).
  rewrite Hg in Hr. discriminate Hr.
Qed.

Lemma found_exists nameUtf8 ssp displayName :
  found_record nameUtf8 ssp displayName !! "exists" = Some (JsBoolean true).
Proof. reflexivity. Qed.

Lemma not_found_exists nameUtf8 :
  not_found_record nameUtf8 !! "exists" = Some (JsBoolean false).
Proof. reflexivity. Qed.

Ltac outcomes :=
  repeat match goal with
    | X : ∃ _, _ |- _ => destruct X
    | X : _ ∧ _ |- _ => destruct X
    | X : _ ∨ _ |- _ => destruct X
    | X : Returned _ = Returned _ |- _ => injection X as X
    | X : JsObject _ = JsObject _ |- _ => injection X as X
    end;
  subst;
  repeat match goal with
    | X : found_record _ _ _ !! "exists" = _ |- _ => rewrite found_exists in X
    | X : not_found_record _ !! "exists" = _ |- _ =>
        rewrite not_found_exists in X
    end;
  cbn in *; try discriminate; try congruence.

(** C10, as the code has it.  For the same arguments and the same
    platform: [ServiceExists] returns false exactly when [GetServiceStatus]
    returns a record with exists = false; it returns true exactly when
    [GetServiceStatus] returns a record with exists = true or throws the
    error of a failed status query; whenever [ServiceExists] throws,
    [GetServiceStatus] throws the same error; and both make the same
    handle-opening calls, with the same rights. *)
Theorem exists_agrees_with_status {S} (P : Platform S) (info : CallbackInfo)
    (σ : S) (e : DWORD) (H : gset SC_HANDLE) :
  let exists_ := ServiceExists P info (entry σ e H) in
  let status := GetServiceStatus P info (entry σ e H) in
  (completion exists_ = Returned (JsBoolean false) ↔
   ∃ record : gmap string JsValue,
     completion status = Returned (JsObject record)
     ∧ record !! "exists" = Some (JsBoolean false))
  ∧ (completion exists_ = Returned (JsBoolean true) ↔
     (∃ record : gmap string JsValue,
        completion status = Returned (JsObject record)
        ∧ record !! "exists" = Some (JsBoolean true))
     ∨ (∃ err : DWORD,
          completion status
          = Thrown (Error ("QueryServiceStatusEx failed (error "
                             +:+ to_string err +:+ ")"))))
  ∧ (∀ error : JsError,
       completion exists_ = Thrown error → completion status = Thrown error)
  ∧ List.filter is_open_call (calls exists_.2)
    = List.filter is_open_call (calls status.2).
Proof.
  cbv zeta. destruct (name_argument info) as [nameUtf8|] eqn:Hn.
  2:{ rewrite (ServiceExists_rejects P info σ e H Hn),
        (GetServiceStatus_rejects P info σ e H Hn).
      repeat split; intros; outcomes. }
  destruct (ServiceExists_table P info σ e H nameUtf8 Hn) as (_ & Oe & He).
  destruct (GetServiceStatus_table P info σ e H nameUtf8 Hn) as (_ & Og & Hg).
  rewrite Oe, Og, He. clear Oe Og He.
  unfold manager_error, service_error, status_error in *.
  destruct ((manager_answer P σ).1) as [[]|c0].
  2:{ rewrite Hg. destruct (c0 =? _); repeat split; intros; outcomes. }
  destruct ((service_answer P σ H nameUtf8).1) as [[]|c1].
  2:{ rewrite Hg.
      destruct (c1 =? ERROR_SERVICE_DOES_NOT_EXIST).
      - repeat split; intros; outcomes.
        exists (not_found_record nameUtf8). split; reflexivity.
      - destruct (c1 =? _); repeat split; intros; outcomes. }
  destruct ((status_answer P σ H nameUtf8).1) as [ssp|c2].
  - rewrite Hg. repeat split; intros; outcomes.
    left. eexists. split; reflexivity.
  - rewrite Hg. repeat split; intros; outcomes.
    right. eexists. reflexivity.
Qed.

Lemma exists_agrees_witness :
  completion (ServiceExists (scripted manager_denies) [JsString "Spooler"]
                (entry tt 0 ∅))
    = Thrown (Error "Access denied opening Service Control Manager")
  ∧ completion (GetServiceStatus (scripted manager_denies) [JsString "Spooler"]
                  (entry tt 0 ∅))
    = Thrown (Error "Access denied opening Service Control Manager").
Proof.
  assert (completion (ServiceExists (scripted manager_denies)
                        [JsString "Spooler"] (entry tt 0 ∅))
          = Thrown (Error "Access denied opening Service Control Manager"))
    as He by (vm_compute; reflexivity).
  split; [exact He|].
  exact (proj1 (proj2 (proj2 (exists_agrees_with_status (scripted manager_denies)
                                [JsString "Spooler"] tt 0 ∅))) _ He).
Defined.

(** * Further properties of the addon *)

Section Runs.
Context {S : Type} (P : Platform S).

(** [WideToUtf8], in full. *)
Lemma WideToUtf8_exact wide σ e (H : gset SC_HANDLE) cs px :
  WideToUtf8 P wide (mkWorld σ e H cs px)
  = (utf8_of P wide,
     mkWorld σ (error_after_conversion P wide e) H
             (cs ++ conversion_calls P wide) px).
Proof.
  destruct wide as [w|]; cbn.
  { unfold_conversions. reduce.
    destruct (wc2mb P w) as [text|c]; reduce; [|reflexivity].
    destruct (Z.leb_spec (Z.of_nat (String.length text) + 1) 0); [lia|].
    replace (Z.of_nat (String.length text) + 1 =? 0)%Z with false
      by (symmetry; apply Z.eqb_neq; lia).
    replace (Z.to_nat (Z.of_nat (String.length text) + 1 - 1))
      with (String.length text) by lia.
    reduce. by rewrite substring_all, <- app_assoc. }
  by rewrite app_nil_r.
Qed.

Lemma fill_array_exact services indices :
  ∀ arr σ e (H : gset SC_HANDLE) cs px,
  ∃ e',
    fill_array P services indices arr (mkWorld σ e H cs px)
    = (foldl (λ arr i, <[i := record_of P (services !!! i)]> arr) arr indices,
       mkWorld σ e' H
         (cs ++ listing_calls P ((services !!!.) <$> indices)) px).
Proof.
  induction indices as [|i rest IH]; intros arr σ e H cs px;
    cbn [fill_array foldl fmap list_fmap].
  - exists e. by rewrite app_nil_r.
  - unfold service_object, bind, ret. cbn beta.
    rewrite WideToUtf8_exact. cbn beta iota.
    rewrite WideToUtf8_exact. cbn beta iota zeta.
    destruct (IH (<[i := record_of P (services !!! i)]> arr) σ
                (error_after_conversion P (lpDisplayName (services !!! i))
                   (error_after_conversion P (lpServiceName (services !!! i)) e))
                H ((cs ++ conversion_calls P (lpServiceName (services !!! i)))
                     ++ conversion_calls P (lpDisplayName (services !!! i))) px)
      as (e' & IHe).
    exists e'. unfold record_of in *. rewrite IHe.
    unfold listing_calls. cbn [flat_map]. by rewrite <- !app_assoc.
Qed.

Lemma all_indices (services : list ENUM_SERVICE_STATUS_PROCESSW) :
  (services !!!.) <$> seq 0 (length services) = services.
Proof.
  apply list_eq. intros i. rewrite list_lookup_fmap.
  destruct (decide (i < length services)%nat) as [Hi|Hi].
  - rewrite lookup_seq_lt by done. cbn.
    by rewrite list_lookup_lookup_total_lt.
  - rewrite lookup_seq_ge by lia. cbn. symmetry. apply lookup_ge_None. lia.
Qed.
End Runs.

Ltac convert_exact :=
  match goal with
  | |- context [WideToUtf8 ?P ?x (mkWorld ?s ?e ?H ?cs ?px)] =>
      rewrite (WideToUtf8_exact P x s e H cs px)
  | |- context [widen ?P ?x (mkWorld ?s ?e ?H ?cs ?px)] =>
      rewrite (widen_run P x s e H cs px)
  end; reduce.

(** Two worlds are the same once the handle sets and the logs are. *)
Ltac same_world :=
  repeat rewrite <- app_assoc; cbn [app];
  repeat f_equal; try set_solver.

Section Anywhere.
Context {S : Type} (P : Platform S).
Context (info : CallbackInfo) (σ : S) (e : DWORD) (H : gset SC_HANDLE).
Context (cs : list Call) (px : option JsError).

Lemma ServiceExists_rejects_anywhere :
  name_argument info = None →
  ServiceExists P info (mkWorld σ e H cs px)
  = (JsNull, mkWorld σ e H cs
               (Some (TypeError "Service name (string) expected"))).
Proof.
  intros Hn. unfold ServiceExists. rewrite (guard_rejects _ Hn). reflexivity.
Qed.

Lemma GetServiceStatus_rejects_anywhere :
  name_argument info = None →
  GetServiceStatus P info (mkWorld σ e H cs px)
  = (JsNull, mkWorld σ e H cs
               (Some (TypeError "Service name (string) expected"))).
Proof.
  intros Hn. unfold GetServiceStatus. rewrite (guard_rejects _ Hn). reflexivity.
Qed.

Lemma ServiceExists_run nameUtf8 :
  name_argument info = Some nameUtf8 →
  let hm := manager_handle H in
  let hs := service_handle H in
  let wname := mb2wc P (c_str nameUtf8) in
  ServiceExists P info (mkWorld σ e H cs px) =
    match (manager_answer P σ).1 with
    | Fail err =>
        (JsNull,
         mkWorld (manager_answer P σ).2 err H
           (cs ++ name_calls P nameUtf8
               ++ [CallOpenSCManagerW manager_rights; CallGetLastError])
           (Some (manager_error err)))
    | Ok _ =>
        match (service_answer P σ H nameUtf8).1 with
        | Fail err =>
            let closed :=
              after_close P hm (err, (service_answer P σ H nameUtf8).2) in
            (if err =? ERROR_SERVICE_DOES_NOT_EXIST
             then JsBoolean false else JsNull,
             mkWorld closed.2 closed.1 H
               (cs ++ name_calls P nameUtf8
                   ++ [CallOpenSCManagerW manager_rights;
                       CallOpenServiceW hm wname service_rights;
                       CallGetLastError; CallCloseServiceHandle hm])
               (if err =? ERROR_SERVICE_DOES_NOT_EXIST
                then px else Some (service_error nameUtf8 err)))
        | Ok _ =>
            let closed :=
              after_close P hm
                (after_close P hs (e, (service_answer P σ H nameUtf8).2)) in
            (JsBoolean true,
             mkWorld closed.2 closed.1 H
               (cs ++ name_calls P nameUtf8
                   ++ [CallOpenSCManagerW manager_rights;
                       CallOpenServiceW hm wname service_rights;
                       CallCloseServiceHandle hs; CallCloseServiceHandle hm])
               px)
        end
    end.
Proof.
  intros [Hg Hname]%guard_accepts. cbv zeta.
  destruct (fresh_twice H) as (F1 & F2 & F3).
  unfold ServiceExists, name_calls, manager_error, service_error, after_close.
  rewrite Hg, Hname. clear Hg Hname. unfold_answers.
  unfold_calls; reduce. convert_exact.
  answer. destruct r as [[]|err]; reduce.
  2:{ destruct (err =? _); same_world. }
  answer. destruct r as [[]|err]; reduce; close_handles.
  - same_world.
  - destruct (err =? _); [|destruct (err =? _)]; reduce; same_world.
Qed.

Lemma GetServiceStatus_run nameUtf8 :
  name_argument info = Some nameUtf8 →
  let hm := manager_handle H in
  let hs := service_handle H in
  let wname := mb2wc P (c_str nameUtf8) in
  GetServiceStatus P info (mkWorld σ e H cs px) =
    match (manager_answer P σ).1 with
    | Fail err =>
        (JsNull,
         mkWorld (manager_answer P σ).2 err H
           (cs ++ name_calls P nameUtf8
               ++ [CallOpenSCManagerW manager_rights; CallGetLastError])
           (Some (manager_error err)))
    | Ok _ =>
        match (service_answer P σ H nameUtf8).1 with
        | Fail err =>
            let closed :=
              after_close P hm (err, (service_answer P σ H nameUtf8).2) in
            (if err =? ERROR_SERVICE_DOES_NOT_EXIST
             then JsObject (not_found_record nameUtf8) else JsNull,
             mkWorld closed.2 closed.1 H
               (cs ++ name_calls P nameUtf8
                   ++ [CallOpenSCManagerW manager_rights;
                       CallOpenServiceW hm wname service_rights;
                       CallGetLastError; CallCloseServiceHandle hm])
               (if err =? ERROR_SERVICE_DOES_NOT_EXIST
                then px else Some (service_error nameUtf8 err)))
        | Ok _ =>
            let status := (status_answer P σ H nameUtf8).1 in
            let closed :=
              after_close P hm
                (after_close P hs
                   (reported_code P σ H nameUtf8
                      (match status with Ok _ => e | Fail code => code end),
                    state_after_config P σ H nameUtf8)) in
            let err := closed.1 in
            (match status with
             | Ok ssp =>
                 JsObject (found_record nameUtf8 ssp
                             (display_name_of P σ H nameUtf8))
             | Fail _ => JsNull
             end,
             mkWorld closed.2 err H
               (cs ++ name_calls P nameUtf8
                   ++ [CallOpenSCManagerW manager_rights;
                       CallOpenServiceW hm wname service_rights;
                       CallQueryServiceStatusEx hs]
                   ++ config_calls P σ H nameUtf8
                   ++ [CallCloseServiceHandle hs; CallCloseServiceHandle hm]
                   ++ match status with
                      | Ok _ => []
                      | Fail _ => [CallGetLastError]
                      end)
               (match status with
                | Ok _ => px
                | Fail _ => Some (status_error err)
                end))
        end
    end.
Proof.
  intros [Hg Hname]%guard_accepts. cbv zeta.
  destruct (fresh_twice H) as (F1 & F2 & F3).
  unfold GetServiceStatus, name_calls, config_calls, after_close,
    state_after_config, manager_error, service_error, status_error,
    not_found_record, found_record, display_name_of, reported_code.
  rewrite Hg, Hname. clear Hg Hname. unfold_answers.
  unfold_calls; reduce. convert_exact.
  answer. destruct r as [[]|err]; reduce.
  2:{ destruct (err =? _); same_world. }
  answer. destruct r as [[]|err]; reduce.
  2:{ close_handles.
      destruct (err =? _); [|destruct (err =? _)]; reduce; same_world. }
  answer. answer.
  destruct (0 <? default 0 (config_bytesNeeded r0)) eqn:Hbytes; reduce.
  - answer. destruct r1 as [[pConfig|err] bytes]; reduce.
    + convert_exact. close_handles.
      destruct r as [ssp|err]; reduce; same_world.
    + close_handles. destruct r as [ssp|err']; reduce; same_world.
  - close_handles. destruct r as [ssp|err]; reduce; same_world.
Qed.

Lemma ListServices_run :
  let hm := manager_handle H in
  match (manager_answer P σ).1 with
  | Fail err =>
      ListServices P info (mkWorld σ e H cs px) =
        (JsNull,
         mkWorld (manager_answer P σ).2 err H
           (cs ++ [CallOpenSCManagerW manager_rights; CallGetLastError])
           (Some (manager_error err)))
  | Ok _ =>
      let enumeration :=
        [CallOpenSCManagerW manager_rights;
         CallEnumServicesStatusExW hm 0 0;
         CallEnumServicesStatusExW hm (bytesNeeded P σ H) (resumeHandle P σ H);
         CallCloseServiceHandle hm] in
      match enum_result (enum_answer P σ H).1 with
      | Fail err =>
          let closed := after_close P hm (err, (enum_answer P σ H).2) in
          ListServices P info (mkWorld σ e H cs px) =
            (JsNull,
             mkWorld closed.2 closed.1 H
               (cs ++ enumeration ++ [CallGetLastError])
               (Some (enum_error closed.1)))
      | Ok _ =>
          let services := enum_services (enum_answer P σ H).1 in
          ∃ err,
            ListServices P info (mkWorld σ e H cs px) =
              (JsArray (record_of P <$> services),
               mkWorld (handle_closed P hm (enum_answer P σ H).2).2 err H
                 (cs ++ enumeration ++ listing_calls P services) px)
      end
  end.
Proof.
  cbv zeta. destruct (fresh_twice H) as (F1 & F2 & F3).
  unfold ListServices, manager_error, enum_error, after_close.
  unfold_answers. unfold_calls. reduce.
  answer. destruct r as [[]|err]; reduce.
  2:{ destruct (err =? _); same_world. }
  answer. answer. close_handles.
  destruct r0 as [res services bytes resume]; reduce.
  destruct res as [[]|err]; reduce.
  2:{ same_world. }
  rewrite Nat2N.id.
  match goal with
  | |- context [fill_array ?P ?sv ?ix ?arr (mkWorld ?s ?e ?H ?cs ?px)] =>
      destruct (fill_array_exact P sv ix arr s e H cs px) as (e' & ->)
  end.
  reduce. rewrite filled, all_indices. exists e'. same_world.
Qed.
End Anywhere.

(** X1.  An open that fails for another reason than the ones singled out
    is reported with the code of that very open: a session open failing
    with a code other than ERROR_ACCESS_DENIED gives "Failed to open Service
    Control Manager (error <code>)", a service open failing with a code
    other than ERROR_SERVICE_DOES_NOT_EXIST and ERROR_ACCESS_DENIED gives
    "Failed to open service '<name>' (error <code>)", in both named
    operations. *)
Theorem open_failure_carries_its_code {S} (P : Platform S) (nameUtf8 : string)
    (rest : CallbackInfo) (σ : S) (e : DWORD) (H : gset SC_HANDLE)
    (err : DWORD) :
  let info := JsString nameUtf8 :: rest in
  let manager_failed :=
    Thrown (Error ("Failed to open Service Control Manager (error "
                     +:+ to_string err +:+ ")")) in
  let service_failed :=
    Thrown (Error ("Failed to open service '" +:+ nameUtf8
                     +:+ "' (error " +:+ to_string err +:+ ")")) in
  ((manager_answer P σ).1 = Fail err →
   err ≠ ERROR_ACCESS_DENIED →
   completion (ServiceExists P info (entry σ e H)) = manager_failed
   ∧ completion (GetServiceStatus P info (entry σ e H)) = manager_failed)
  ∧ ((manager_answer P σ).1 = Ok tt →
     (service_answer P σ H nameUtf8).1 = Fail err →
     err ≠ ERROR_SERVICE_DOES_NOT_EXIST →
     err ≠ ERROR_ACCESS_DENIED →
     completion (ServiceExists P info (entry σ e H)) = service_failed
     ∧ completion (GetServiceStatus P info (entry σ e H)) = service_failed).
Proof.
  cbv zeta.
  destruct (ServiceExists_table P (JsString nameUtf8 :: rest) σ e H nameUtf8
              eq_refl) as (_ & _ & He).
  destruct (GetServiceStatus_table P (JsString nameUtf8 :: rest) σ e H nameUtf8
              eq_refl) as (_ & _ & Hg).
  unfold manager_error, service_error in *. split.
  - intros Hm Hd%N.eqb_neq. rewrite Hm in He, Hg. rewrite Hd in He, Hg. done.
  - intros Hm Hs Hn%N.eqb_neq Hd%N.eqb_neq.
    rewrite Hm, Hs in He, Hg. rewrite Hn, Hd in He, Hg. done.
Qed.

Lemma open_failure_witness :
  completion (ServiceExists (scripted rejects_name) [JsString ""]
                (entry tt 0 ∅))
    = Thrown (Error "Failed to open service '' (error 123)")
  ∧ completion (GetServiceStatus (scripted manager_unreachable)
                  [JsString "Spooler"] (entry tt 0 ∅))
    = Thrown (Error "Failed to open Service Control Manager (error 1722)").
Proof.
  split.
  - exact (proj1 (proj2 (open_failure_carries_its_code (scripted rejects_name)
                           "" [] tt 0 ∅ ERROR_INVALID_NAME)
                        eq_refl eq_refl ltac:(discriminate) ltac:(discriminate))).
  - exact (proj2 (proj1 (open_failure_carries_its_code
                           (scripted manager_unreachable) "Spooler" [] tt 0 ∅
                           RPC_S_SERVER_UNAVAILABLE)
                        eq_refl ltac:(discriminate))).
Defined.

(** X2.  When [ListServices] cannot open the session it makes no
    enumeration call at all: the log is the open followed by
    [GetLastError], null is returned, and the pending error is the
    access-denied one for ERROR_ACCESS_DENIED and the one carrying the code
    of the open otherwise. *)
Theorem ListServices_without_session {S} (P : Platform S) (info : CallbackInfo)
    (σ : S) (e : DWORD) (H : gset SC_HANDLE) (err : DWORD) :
  (manager_answer P σ).1 = Fail err →
  let r := ListServices P info (entry σ e H) in
  r.1 = JsNull
  ∧ calls r.2 = [CallOpenSCManagerW manager_rights; CallGetLastError]
  ∧ completion r =
      Thrown (if err =? ERROR_ACCESS_DENIED
              then Error "Access denied opening Service Control Manager"
              else Error ("Failed to open Service Control Manager (error "
                            +:+ to_string err +:+ ")")).
Proof.
  intros Hm. cbv zeta.
  pose proof (ListServices_run P info σ e H [] None) as Hr. cbv zeta in Hr.
  rewrite Hm in Hr. unfold entry. rewrite Hr. done.
Qed.

Lemma ListServices_without_session_witness :
  (manager_answer (scripted manager_denies) tt).1 = Fail ERROR_ACCESS_DENIED
  ∧ completion (ListServices (scripted manager_denies) [] (entry tt 0 ∅))
    = Thrown (Error "Access denied opening Service Control Manager").
Proof.
  split; [reflexivity|].
  apply (ListServices_without_session (scripted manager_denies) [] tt 0 ∅
           ERROR_ACCESS_DENIED eq_refl).
Defined.

(** X3.  When the session opens and the second enumeration call succeeds
    (whatever the first one answered), [ListServices] returns an array with
    exactly one element per buffer entry, in the order of the buffer; the
    element at index [i] is an object with exactly the five keys, whose
    name, state and pid are those of entry [i].  An empty buffer gives the
    empty array. *)
Theorem ListServices_lists_every_entry {S} (P : Platform S)
    (info : CallbackInfo) (σ : S) (e : DWORD) (H : gset SC_HANDLE) :
  (manager_answer P σ).1 = Ok tt →
  enum_result (enum_answer P σ H).1 = Ok tt →
  let services := enum_services (enum_answer P σ H).1 in
  ∃ items : list JsValue,
    completion (ListServices P info (entry σ e H)) = Returned (JsArray items)
    ∧ length items = length services
    ∧ ∀ (i : nat) (svc : ENUM_SERVICE_STATUS_PROCESSW),
        services !! i = Some svc →
        ∃ record : gmap string JsValue,
          items !! i = Some (JsObject record)
          ∧ record !! "name" = Some (JsString (utf8_of P (lpServiceName svc)))
          ∧ record !! "state"
            = Some (JsString (StateToString
                                (dwCurrentState (ServiceStatusProcess svc))))
          ∧ record !! "pid"
            = Some (JsNumber (Z.of_N (dwProcessId (ServiceStatusProcess svc))))
          ∧ dom record
            = list_to_set ["name"; "displayName"; "state"; "pid"; "exists"].
Proof.
  intros Hm He. cbv zeta.
  destruct (ListServices_table P info σ e H) as (_ & Hl). cbv zeta in Hl.
  rewrite Hm, He in Hl. destruct Hl as [_ Hl].
  eexists. split; [exact Hl|]. split; [apply length_fmap|].
  intros i svc Hi. eexists. split.
  - rewrite list_lookup_fmap, Hi. reflexivity.
  - repeat split; reflexivity.
Qed.

Lemma ListServices_lists_witness :
  ∃ items : list JsValue,
    completion (ListServices (scripted healthy) [] (entry tt 0 ∅))
      = Returned (JsArray items)
    ∧ length items = 2%nat.
Proof.
  destruct (ListServices_lists_every_entry (scripted healthy) [] tt 0 ∅
              eq_refl eq_refl) as (items & Hr & Hlen & _).
  exists items. split; [exact Hr|]. rewrite Hlen. reflexivity.
Defined.

Lemma no_service_calls_in_conversions {S} (P : Platform S) wide :
  List.filter is_service_call (conversion_calls P wide) = [].
Proof.
  destruct wide as [w|]; [|reflexivity]. cbn. by destruct (wc2mb P w).
Qed.

Lemma no_service_calls_in_listing {S} (P : Platform S) services :
  List.filter is_service_call (listing_calls P services) = [].
Proof.
  induction services as [|svc rest IH]; [reflexivity|].
  unfold listing_calls in *. cbn [flat_map].
  by rewrite !List.filter_app, !no_service_calls_in_conversions, IH.
Qed.

(** X4.  [ListServices] never touches a single service: on no path, and
    whatever the platform answers, does it call [OpenServiceW],
    [QueryServiceStatusEx] or [QueryServiceConfigW]. *)
Theorem ListServices_opens_no_service {S} (P : Platform S)
    (info : CallbackInfo) (σ : S) (e : DWORD) (H : gset SC_HANDLE) :
  List.filter is_service_call (calls (ListServices P info (entry σ e H)).2)
  = [].
Proof.
  pose proof (ListServices_run P info σ e H [] None) as Hr. cbv zeta in Hr.
  unfold entry.
  destruct ((manager_answer P σ).1) as [[]|c0]; [|by rewrite Hr].
  destruct (enum_result (enum_answer P σ H).1) as [[]|c1]; [|by rewrite Hr].
  destruct Hr as [err ->]. cbn [snd calls app List.filter is_service_call].
  apply no_service_calls_in_listing.
Qed.

(** X5.  The exact sequence of platform calls of [ServiceExists] for a
    string argument: the two conversions of the name, the session open,
    then [GetLastError] if it failed; otherwise the service open, then on
    failure [GetLastError] before the session is closed, and on success the
    close of the service followed by the close of the session.  It never
    queries status or configuration. *)
Theorem ServiceExists_call_sequence {S} (P : Platform S) (nameUtf8 : string)
    (rest : CallbackInfo) (σ : S) (e : DWORD) (H : gset SC_HANDLE) :
  let hm := manager_handle H in
  let hs := service_handle H in
  calls (ServiceExists P (JsString nameUtf8 :: rest) (entry σ e H)).2 =
    [CallMultiByteToWideChar (c_str nameUtf8) 0;
     CallMultiByteToWideChar (c_str nameUtf8)
       (Z.of_nat (length (mb2wc P (c_str nameUtf8))) + 1);
     CallOpenSCManagerW manager_rights]
    ++ match (manager_answer P σ).1 with
       | Fail _ => [CallGetLastError]
       | Ok _ =>
           CallOpenServiceW hm (mb2wc P (c_str nameUtf8)) service_rights ::
           match (service_answer P σ H nameUtf8).1 with
           | Fail _ => [CallGetLastError; CallCloseServiceHandle hm]
           | Ok _ => [CallCloseServiceHandle hs; CallCloseServiceHandle hm]
           end
       end.
Proof.
  cbv zeta. unfold entry.
  rewrite (ServiceExists_run P (JsString nameUtf8 :: rest) σ e H [] None
             nameUtf8 eq_refl).
  destruct ((manager_answer P σ).1) as [[]|c0]; [|reflexivity].
  destruct ((service_answer P σ H nameUtf8).1) as [[]|c1]; reflexivity.
Qed.

(** X6.  When both opens succeed, [GetServiceStatus] makes, after them:
    the status query; the configuration call with no buffer; only if that
    left a positive size, the configuration call with a buffer of exactly
    that size, followed (if it succeeded) by the conversion of the display
    name; the close of the service, the close of the session; and, only if
    the status query had failed, [GetLastError] as the very last call. *)
Theorem GetServiceStatus_call_sequence {S} (P : Platform S) (nameUtf8 : string)
    (rest : CallbackInfo) (σ : S) (e : DWORD) (H : gset SC_HANDLE) :
  (manager_answer P σ).1 = Ok tt →
  (service_answer P σ H nameUtf8).1 = Ok tt →
  let hm := manager_handle H in
  let hs := service_handle H in
  let size := configBytes P σ H nameUtf8 in
  calls (GetServiceStatus P (JsString nameUtf8 :: rest) (entry σ e H)).2 =
    [CallMultiByteToWideChar (c_str nameUtf8) 0;
     CallMultiByteToWideChar (c_str nameUtf8)
       (Z.of_nat (length (mb2wc P (c_str nameUtf8))) + 1);
     CallOpenSCManagerW manager_rights;
     CallOpenServiceW hm (mb2wc P (c_str nameUtf8)) service_rights;
     CallQueryServiceStatusEx hs;
     CallQueryServiceConfigW hs 0]
    ++ (if 0 <? size then
          CallQueryServiceConfigW hs size ::
          match config_result (config_answer P σ H nameUtf8).1 with
          | Ok pConfig => conversion_calls P (config_lpDisplayName pConfig)
          | Fail _ => []
          end
        else [])
    ++ [CallCloseServiceHandle hs; CallCloseServiceHandle hm]
    ++ match (status_answer P σ H nameUtf8).1 with
       | Ok _ => []
       | Fail _ => [CallGetLastError]
       end.
Proof.
  intros Hm Hs. cbv zeta. unfold entry.
  rewrite (GetServiceStatus_run P (JsString nameUtf8 :: rest) σ e H [] None
             nameUtf8 eq_refl).
  rewrite Hm, Hs. cbv zeta. cbn [snd calls]. unfold name_calls, config_calls.
  cbn [app]. reflexivity.
Qed.

Lemma GetServiceStatus_call_sequence_witness :
  length (calls (GetServiceStatus (scripted healthy) [JsString "Spooler"]
                   (entry tt 0 ∅)).2) = 11%nat.
Proof.
  rewrite (GetServiceStatus_call_sequence (scripted healthy) "Spooler" [] tt 0
             ∅ eq_refl eq_refl).
  reflexivity.
Defined.

Lemma c_str_cut (name suffix : string) :
  c_str (name +:+ String Ascii.zero suffix) = c_str name.
Proof.
  induction name as [|c name IH]; [reflexivity|].
  change (String c name +:+ String Ascii.zero suffix)
    with (String c (name +:+ String Ascii.zero suffix)).
  cbn [c_str]. destruct (Ascii.eqb c Ascii.zero); [reflexivity | by rewrite IH].
Qed.

(** X7.  A name with an embedded NUL is looked up by what precedes the
    NUL: for the name extended by a NUL and anything after it, both named
    operations make exactly the calls they make for the name itself, and
    [ServiceExists] returns the same boolean; yet a record returned by
    [GetServiceStatus] carries the whole argument as its name. *)
Theorem name_is_cut_at_NUL {S} (P : Platform S) (nameUtf8 suffix : string)
    (rest : CallbackInfo) (σ : S) (e : DWORD) (H : gset SC_HANDLE) :
  let long := nameUtf8 +:+ String Ascii.zero suffix in
  calls (ServiceExists P (JsString long :: rest) (entry σ e H)).2
    = calls (ServiceExists P (JsString nameUtf8 :: rest) (entry σ e H)).2
  ∧ calls (GetServiceStatus P (JsString long :: rest) (entry σ e H)).2
    = calls (GetServiceStatus P (JsString nameUtf8 :: rest) (entry σ e H)).2
  ∧ (∀ b : bool,
       completion (ServiceExists P (JsString long :: rest) (entry σ e H))
         = Returned (JsBoolean b) ↔
       completion (ServiceExists P (JsString nameUtf8 :: rest) (entry σ e H))
         = Returned (JsBoolean b))
  ∧ (∀ record : gmap string JsValue,
       completion (GetServiceStatus P (JsString long :: rest) (entry σ e H))
         = Returned (JsObject record) →
       record !! "name" = Some (JsString long)).
Proof.
  cbv zeta. set (long := nameUtf8 +:+ String Ascii.zero suffix).
  assert (service_answer P σ H long = service_answer P σ H nameUtf8) as Hs
    by (unfold service_answer, long; by rewrite c_str_cut).
  assert (name_calls P long = name_calls P nameUtf8) as Hn
    by (unfold name_calls, long; by rewrite c_str_cut).
  assert (c_str long = c_str nameUtf8) as Hc by apply c_str_cut.
  split; [|split; [|split]].
  - unfold entry.
    rewrite (ServiceExists_run P (JsString long :: rest) σ e H [] None
               long eq_refl),
      (ServiceExists_run P (JsString nameUtf8 :: rest) σ e H [] None
         nameUtf8 eq_refl).
    cbv zeta. rewrite Hs, Hn, Hc.
    destruct ((manager_answer P σ).1) as [[]|c0]; [|reflexivity].
    destruct ((service_answer P σ H nameUtf8).1) as [[]|c1]; reflexivity.
  - unfold entry.
    rewrite (GetServiceStatus_run P (JsString long :: rest) σ e H [] None
               long eq_refl),
      (GetServiceStatus_run P (JsString nameUtf8 :: rest) σ e H [] None
         nameUtf8 eq_refl).
    cbv zeta.
    unfold config_calls, configBytes, config_answer, configBytes,
      config_size_answer, status_answer.
    rewrite Hs, Hn, Hc.
    destruct ((manager_answer P σ).1) as [[]|c0]; [|reflexivity].
    destruct ((service_answer P σ H nameUtf8).1) as [[]|c1]; reflexivity.
  - intros b.
    destruct (ServiceExists_table P (JsString long :: rest) σ e H long eq_refl)
      as (_ & _ & ->).
    destruct (ServiceExists_table P (JsString nameUtf8 :: rest) σ e H nameUtf8
                eq_refl) as (_ & _ & ->).
    rewrite Hs. unfold manager_error, service_error.
    destruct ((manager_answer P σ).1) as [[]|c0].
    2:{ destruct (c0 =? _); split; discriminate. }
    destruct ((service_answer P σ H nameUtf8).1) as [[]|c1]; [done|].
    destruct (c1 =? ERROR_SERVICE_DOES_NOT_EXIST); [done|].
    destruct (c1 =? _); split; discriminate.
  - intros record Hr.
    destruct (GetServiceStatus_table P (JsString long :: rest) σ e H long
                eq_refl) as (_ & _ & Hg).
    rewrite Hr in Hg.
    unfold manager_error, service_error in Hg.
    destruct ((manager_answer P σ).1) as [[]|c0].
    2:{ destruct (c0 =? _); discriminate. }
    destruct ((service_answer P σ H long).1) as [[]|c1].
    + destruct ((status_answer P σ H long).1) as [ssp|c2]; [|discriminate].
      by injection Hg as ->.
    + destruct (c1 =? ERROR_SERVICE_DOES_NOT_EXIST).
      * by injection Hg as ->.
      * destruct (c1 =? _); discriminate.
Qed.

(** X8.  [WideToUtf8] by cases.  For a NULL pointer it returns the empty
    string and calls nothing.  When the conversion fails it returns the
    empty string after the single size call, and the last-error cell holds
    the conversion's code.  Otherwise it returns the converted text after
    two calls, the size call and the call that fills a buffer of exactly
    that size, and leaves the last-error cell alone.  In no case does it
    touch the handles, the platform state or the pending exception. *)
Theorem WideToUtf8_cases {S} (P : Platform S) (σ : S) (e : DWORD)
    (H : gset SC_HANDLE) (cs : list Call) (px : option JsError) :
  let w := mkWorld σ e H cs px in
  WideToUtf8 P None w = ("", w)
  ∧ (∀ (wide : WSTR) (code : DWORD),
       wc2mb P wide = Fail code →
       WideToUtf8 P (Some wide) w
       = ("", mkWorld σ code H (cs ++ [CallWideCharToMultiByte wide 0]) px))
  ∧ (∀ (wide : WSTR) (text : string),
       wc2mb P wide = Ok text →
       WideToUtf8 P (Some wide) w
       = (text,
          mkWorld σ e H
            (cs ++ [CallWideCharToMultiByte wide 0;
                    CallWideCharToMultiByte wide
                      (Z.of_nat (String.length text) + 1)]) px)).
Proof.
  cbv zeta. split; [reflexivity|].
  split; intros wide x Hx; rewrite WideToUtf8_exact; cbn; by rewrite Hx.
Qed.

Lemma WideToUtf8_witness :
  WideToUtf8 (scripted healthy) (Some (wide_of_ascii "Print Spooler"))
    (entry tt 0 ∅)
  = ("Print Spooler",
     mkWorld tt 0 ∅
       [CallWideCharToMultiByte (wide_of_ascii "Print Spooler") 0;
        CallWideCharToMultiByte (wide_of_ascii "Print Spooler") 14] None)
  ∧ WideToUtf8 unconvertible (Some (wide_of_ascii "Print Spooler"))
      (entry tt 0 ∅)
    = ("", mkWorld tt ERROR_NO_UNICODE_TRANSLATION ∅
             [CallWideCharToMultiByte (wide_of_ascii "Print Spooler") 0] None).
Proof.
  split.
  - exact (proj2 (proj2 (WideToUtf8_cases (scripted healthy) tt 0 ∅ [] None))
             (wide_of_ascii "Print Spooler") "Print Spooler" eq_refl).
  - exact (proj1 (proj2 (WideToUtf8_cases unconvertible tt 0 ∅ [] None))
             (wide_of_ascii "Print Spooler") ERROR_NO_UNICODE_TRANSLATION
             eq_refl).
Defined.

(** X9.  What the caller observes never depends on the value the
    last-error cell held when the operation was entered: for every
    operation, argument list and platform, two entry worlds that differ
    only in that value give the same completion.  No operation reports a
    stale code. *)
Theorem outcome_ignores_stale_error {S} (P : Platform S) (f : NativeFunction)
    (info : CallbackInfo) (σ : S) (e e' : DWORD) (H : gset SC_HANDLE) :
  completion (native_body P f info (entry σ e H))
  = completion (native_body P f info (entry σ e' H)).
Proof.
  destruct f; cbn [native_body].
  - destruct (name_argument info) as [nameUtf8|] eqn:Hn.
    + destruct (ServiceExists_table P info σ e H nameUtf8 Hn) as (_ & _ & ->).
      by destruct (ServiceExists_table P info σ e' H nameUtf8 Hn)
        as (_ & _ & ->).
    + by rewrite !ServiceExists_rejects.
  - destruct (name_argument info) as [nameUtf8|] eqn:Hn.
    + destruct (GetServiceStatus_table P info σ e H nameUtf8 Hn)
        as (_ & _ & H1).
      destruct (GetServiceStatus_table P info σ e' H nameUtf8 Hn)
        as (_ & _ & H2).
      destruct ((manager_answer P σ).1) as [[]|c0]; [|congruence].
      destruct ((service_answer P σ H nameUtf8).1) as [[]|c1]; [|congruence].
      destruct ((status_answer P σ H nameUtf8).1); congruence.
    + by rewrite !GetServiceStatus_rejects.
  - destruct (ListServices_table P info σ e H) as (_ & H1).
    destruct (ListServices_table P info σ e' H) as (_ & H2).
    cbv zeta in H1, H2.
    destruct ((manager_answer P σ).1) as [[]|c0].
    2:{ destruct H1 as [_ H1], H2 as [_ H2]. congruence. }
    destruct H1 as [_ H1], H2 as [_ H2].
    destruct (enum_result (enum_answer P σ H).1) as [[]|c1]; [congruence|].
    destruct H1 as [_ H1], H2 as [_ H2]. congruence.
Qed.

Lemma native_body_keeps_handles {S} (P : Platform S) (f : NativeFunction)
    (info : CallbackInfo) (w : World S) :
  open_handles (native_body P f info w).2 = open_handles w
  ∧ ∃ more, calls (native_body P f info w).2 = calls w ++ more.
Proof.
  destruct w as [σ e H cs px]. destruct f; cbn [native_body].
  - destruct (name_argument info) as [nameUtf8|] eqn:Hn.
    + rewrite (ServiceExists_run P info σ e H cs px nameUtf8 Hn). cbv zeta.
      destruct ((manager_answer P σ).1) as [[]|c0]; [|by eauto].
      destruct ((service_answer P σ H nameUtf8).1) as [[]|c1]; by eauto.
    + rewrite ServiceExists_rejects_anywhere by done. cbn.
      split; [done|]. exists []. by rewrite app_nil_r.
  - destruct (name_argument info) as [nameUtf8|] eqn:Hn.
    + rewrite (GetServiceStatus_run P info σ e H cs px nameUtf8 Hn). cbv zeta.
      destruct ((manager_answer P σ).1) as [[]|c0]; [|by eauto].
      destruct ((service_answer P σ H nameUtf8).1) as [[]|c1]; by eauto.
    + rewrite GetServiceStatus_rejects_anywhere by done. cbn.
      split; [done|]. exists []. by rewrite app_nil_r.
  - pose proof (ListServices_run P info σ e H cs px) as Hr. cbv zeta in Hr.
    destruct ((manager_answer P σ).1) as [[]|c0]; [|rewrite Hr; by eauto].
    destruct (enum_result (enum_answer P σ H).1) as [[]|c1];
      [|rewrite Hr; by eauto].
    destruct Hr as [err ->]. by eauto.
Qed.

(** X10.  Any run of calls of the three functions, with any arguments,
    started in any world and against any platform, ends with exactly the
    handles open that were open at the start, and only ever appends to the
    call log. *)
Theorem host_calls_keep_handles {S} (P : Platform S)
    (invocations : list (NativeFunction * CallbackInfo)) (w : World S) :
  open_handles (host_calls P invocations w) = open_handles w
  ∧ ∃ more, calls (host_calls P invocations w) = calls w ++ more.
Proof.
  revert w. induction invocations as [|[f info] rest IH]; intros w.
  - split; [done|]. exists []. by rewrite app_nil_r.
  - cbn [host_calls]. destruct (IH (host_call P f info w).2) as [IHh [m2 IHc]].
    destruct (native_body_keeps_handles P f info w) as [Hh [m1 Hc]].
    unfold host_call in *. cbn [snd open_handles calls] in *.
    split; [congruence|]. exists (m1 ++ m2).
    rewrite IHc, Hc. by rewrite app_assoc.
Qed.

Lemma name_is_cut_witness :
  not_found_record ("Nope" +:+ String Ascii.zero "x") !! "name"
  = Some (JsString ("Nope" +:+ String Ascii.zero "x")).
Proof.
  apply (proj2 (proj2 (proj2 (name_is_cut_at_NUL (scripted no_such_service)
                                "Nope" "x" [] tt 0 ∅)))).
  vm_compute. reflexivity.
Defined.

Lemma StateToString_never_not_found (code : DWORD) :
  StateToString code ≠ "not_found".
Proof. unfold StateToString. repeat case_match; discriminate. Qed.

(** X11.  "not_found" is reserved for absence.  [StateToString] never
    yields it, whatever the code; and in every record [GetServiceStatus]
    returns, the state is "not_found" exactly when exists is false. *)
Theorem not_found_iff_absent {S} (P : Platform S) (info : CallbackInfo) (σ : S)
    (e : DWORD) (H : gset SC_HANDLE) (record : gmap string JsValue) :
  completion (GetServiceStatus P info (entry σ e H))
    = Returned (JsObject record) →
  (record !! "state" = Some (JsString "not_found") ↔
   record !! "exists" = Some (JsBoolean false))
  ∧ ∀ code : DWORD, StateToString code ≠ "not_found".
Proof.
  intros Hr. split; [|apply StateToString_never_not_found].
  destruct (name_argument info) as [nameUtf8|] eqn:Hn.
  2:{ rewrite (GetServiceStatus_rejects P info σ e H Hn) in Hr. discriminate. }
  destruct (GetServiceStatus_table P info σ e H nameUtf8 Hn) as (_ & _ & Hg).
  rewrite Hr in Hg. unfold manager_error, service_error in Hg.
  destruct ((manager_answer P σ).1) as [[]|c0].
  2:{ destruct (c0 =? _); discriminate. }
  destruct ((service_answer P σ H nameUtf8).1) as [[]|c1].
  - destruct ((status_answer P σ H nameUtf8).1) as [ssp|c2]; [|discriminate].
    injection Hg as ->. split.
    + intros [= Hs]. by apply StateToString_never_not_found in Hs.
    + discriminate.
  - destruct (c1 =? ERROR_SERVICE_DOES_NOT_EXIST).
    + injection Hg as ->. done.
    + destruct (c1 =? _); discriminate.
Qed.

Lemma not_found_iff_absent_witness :
  not_found_record "NoSuchServiceXYZ123" !! "state"
    = Some (JsString "not_found") ↔
  not_found_record "NoSuchServiceXYZ123" !! "exists" = Some (JsBoolean false).
Proof.
  apply (not_found_iff_absent (scripted no_such_service)
           [JsString "NoSuchServiceXYZ123"] tt 0 ∅).
  vm_compute. reflexivity.
Defined.

(** X12.  When both opens, the status query and both configuration calls
    succeed, [GetServiceStatus] returns a record with exactly the five
    keys: the name as given, exists true, the state and pid of the status
    query, and as displayName the text of the configuration's
    lpDisplayName. *)
Theorem successful_status_record {S} (P : Platform S) (nameUtf8 : string)
    (rest : CallbackInfo) (σ : S) (e : DWORD) (H : gset SC_HANDLE)
    (ssp : SERVICE_STATUS_PROCESS) (pConfig : QUERY_SERVICE_CONFIGW) :
  (manager_answer P σ).1 = Ok tt →
  (service_answer P σ H nameUtf8).1 = Ok tt →
  (status_answer P σ H nameUtf8).1 = Ok ssp →
  0 < configBytes P σ H nameUtf8 →
  config_result (config_answer P σ H nameUtf8).1 = Ok pConfig →
  ∃ record : gmap string JsValue,
    completion (GetServiceStatus P (JsString nameUtf8 :: rest) (entry σ e H))
      = Returned (JsObject record)
    ∧ record !! "name" = Some (JsString nameUtf8)
    ∧ record !! "exists" = Some (JsBoolean true)
    ∧ record !! "state" = Some (JsString (StateToString (dwCurrentState ssp)))
    ∧ record !! "pid" = Some (JsNumber (Z.of_N (dwProcessId ssp)))
    ∧ record !! "displayName"
      = Some (JsString (utf8_of P (config_lpDisplayName pConfig)))
    ∧ dom record
      = list_to_set ["name"; "exists"; "state"; "pid"; "displayName"].
Proof.
  intros Hm Hs Hq Hb%N.ltb_lt Hc.
  destruct (GetServiceStatus_table P (JsString nameUtf8 :: rest) σ e H nameUtf8
              eq_refl) as (_ & _ & Hg).
  rewrite Hm, Hs, Hq in Hg. unfold display_name_of in Hg.
  rewrite Hb, Hc in Hg.
  eexists. split; [exact Hg|]. repeat split; reflexivity.
Qed.

Lemma successful_status_witness :
  ∃ record : gmap string JsValue,
    completion (GetServiceStatus (scripted healthy) [JsString "Spooler"]
                  (entry tt 0 ∅))
      = Returned (JsObject record)
    ∧ record !! "displayName" = Some (JsString "Print Spooler").
Proof.
  destruct (successful_status_record (scripted healthy) "Spooler" [] tt 0 ∅
              spooler_status
              {| config_lpDisplayName := Some (wide_of_ascii "Print Spooler") |}
              eq_refl eq_refl eq_refl eq_refl eq_refl)
    as (record & Hr & _ & _ & _ & _ & Hd & _).
  exists record. split; [exact Hr|]. rewrite Hd. reflexivity.
Defined.

(** X13.  The shape of what the native functions hand back.  When an
    exception is left pending the returned value is null; otherwise
    [ServiceExists] returns a boolean, [GetServiceStatus] an object and
    [ListServices] an array. *)
Theorem result_shape {S} (P : Platform S) (info : CallbackInfo) (σ : S)
    (e : DWORD) (H : gset SC_HANDLE) :
  let shaped (r : JsValue * World S) (shape : JsValue → Prop) :=
    match completion r with
    | Thrown _ => r.1 = JsNull
    | Returned v => shape v
    end in
  shaped (ServiceExists P info (entry σ e H)) (λ v, ∃ b, v = JsBoolean b)
  ∧ shaped (GetServiceStatus P info (entry σ e H))
           (λ v, ∃ record, v = JsObject record)
  ∧ shaped (ListServices P info (entry σ e H)) (λ v, ∃ items, v = JsArray items).
Proof.
  cbv zeta. unfold entry. split; [|split].
  - destruct (name_argument info) as [nameUtf8|] eqn:Hn.
    2:{ by rewrite ServiceExists_rejects_anywhere. }
    rewrite (ServiceExists_run P info σ e H [] None nameUtf8 Hn). cbv zeta.
    unfold manager_error, service_error.
    destruct ((manager_answer P σ).1) as [[]|c0].
    2:{ by destruct (c0 =? _). }
    destruct ((service_answer P σ H nameUtf8).1) as [[]|c1];
      [cbn; by eauto|].
    destruct (c1 =? ERROR_SERVICE_DOES_NOT_EXIST); [cbn; by eauto|].
    by destruct (c1 =? _).
  - destruct (name_argument info) as [nameUtf8|] eqn:Hn.
    2:{ by rewrite GetServiceStatus_rejects_anywhere. }
    rewrite (GetServiceStatus_run P info σ e H [] None nameUtf8 Hn). cbv zeta.
    unfold manager_error, service_error.
    destruct ((manager_answer P σ).1) as [[]|c0].
    2:{ by destruct (c0 =? _). }
    destruct ((service_answer P σ H nameUtf8).1) as [[]|c1].
    + destruct ((status_answer P σ H nameUtf8).1) as [ssp|c2]; cbn; by eauto.
    + destruct (c1 =? ERROR_SERVICE_DOES_NOT_EXIST); [cbn; by eauto|].
      by destruct (c1 =? _).
  - pose proof (ListServices_run P info σ e H [] None) as Hr. cbv zeta in Hr.
    unfold manager_error in *.
    destruct ((manager_answer P σ).1) as [[]|c0].
    2:{ rewrite Hr. by destruct (c0 =? _). }
    destruct (enum_result (enum_answer P σ H).1) as [[]|c1].
    + destruct Hr as [err ->]. cbn. by eauto.
    + by rewrite Hr.
Qed.

(** X14.  What [Init] installs.  Compiled without _WIN32 it returns
    [exports] untouched.  Compiled with it, it binds the three names to
    their three functions, replacing whatever they were bound to, leaves
    every other property as it was, and running it a second time changes
    nothing more. *)
Theorem Init_exports (exports : gmap string Export) :
  Init false exports = exports
  ∧ Init true exports !! "serviceExists"
    = Some (ExportFunction NativeServiceExists)
  ∧ Init true exports !! "getServiceStatus"
    = Some (ExportFunction NativeGetServiceStatus)
  ∧ Init true exports !! "listServices"
    = Some (ExportFunction NativeListServices)
  ∧ (∀ key : string,
       key ∉ ["serviceExists"; "getServiceStatus"; "listServices"] →
       Init true exports !! key = exports !! key)
  ∧ Init true (Init true exports) = Init true exports.
Proof.
  unfold Init. cbv zeta. split; [reflexivity|].
  split; [by simplify_map_eq|]. split; [by simplify_map_eq|].
  split; [by simplify_map_eq|]. split.
  - intros key Hkey.
    repeat (apply not_elem_of_cons in Hkey as [? Hkey]).
    by rewrite !lookup_insert_ne.
  - apply map_eq. intros key.
    destruct (decide (key = "listServices")) as [->|?]; [by simplify_map_eq|].
    destruct (decide (key = "getServiceStatus")) as [->|?];
      [by simplify_map_eq|].
    destruct (decide (key = "serviceExists")) as [->|?]; [by simplify_map_eq|].
    by rewrite !lookup_insert_ne.
Qed.

Lemma Init_exports_witness :
  Init true {["version" := ExportValue (JsNumber 1)]} !! "version"
  = Some (ExportValue (JsNumber 1)).
Proof.
  rewrite (proj1 (proj2 (proj2 (proj2 (proj2
             (Init_exports {["version" := ExportValue (JsNumber 1)]})))))
             "version").
  - reflexivity.
  - intros Hin. repeat (apply elem_of_cons in Hin as [Hin|Hin];
                        [discriminate Hin|]).
    by apply elem_of_nil in Hin.
Defined.

(** X15.  A name the platform hands over as NULL, or that cannot be
    converted, never fails an operation: it comes out as the empty string.
    [GetServiceStatus] still returns the record, with displayName empty;
    [ListServices] still lists the entry, with name empty. *)
Theorem unreadable_names_are_empty {S} (P : Platform S) (nameUtf8 : string)
    (info : CallbackInfo) (σ : S) (e : DWORD) (H : gset SC_HANDLE) :
  (∀ (ssp : SERVICE_STATUS_PROCESS) (pConfig : QUERY_SERVICE_CONFIGW),
     (manager_answer P σ).1 = Ok tt →
     (service_answer P σ H nameUtf8).1 = Ok tt →
     (status_answer P σ H nameUtf8).1 = Ok ssp →
     config_result (config_answer P σ H nameUtf8).1 = Ok pConfig →
     unreadable P (config_lpDisplayName pConfig) →
     ∃ record : gmap string JsValue,
       completion (GetServiceStatus P (JsString nameUtf8 :: info)
                     (entry σ e H))
         = Returned (JsObject record)
       ∧ record !! "exists" = Some (JsBoolean true)
       ∧ record !! "displayName" = Some (JsString ""))
  ∧ (∀ (i : nat) (svc : ENUM_SERVICE_STATUS_PROCESSW),
       (manager_answer P σ).1 = Ok tt →
       enum_result (enum_answer P σ H).1 = Ok tt →
       enum_services (enum_answer P σ H).1 !! i = Some svc →
       unreadable P (lpServiceName svc) →
       ∃ (items : list JsValue) (record : gmap string JsValue),
         completion (ListServices P info (entry σ e H))
           = Returned (JsArray items)
         ∧ items !! i = Some (JsObject record)
         ∧ record !! "exists" = Some (JsBoolean true)
         ∧ record !! "name" = Some (JsString "")).
Proof.
  assert (∀ wide, unreadable P wide → utf8_of P wide = "") as Hempty.
  { intros wide [->|(w & code & -> & Hw)]; [reflexivity|].
    cbn. by rewrite Hw. }
  split.
  - intros ssp pConfig Hm Hs Hq Hc Hu.
    destruct (GetServiceStatus_table P (JsString nameUtf8 :: info) σ e H
                nameUtf8 eq_refl) as (_ & _ & Hg).
    rewrite Hm, Hs, Hq in Hg.
    assert (display_name_of P σ H nameUtf8 = "") as Hd.
    { unfold display_name_of. rewrite Hc, (Hempty _ Hu). by destruct (0 <? _). }
    rewrite Hd in Hg. eexists. split; [exact Hg|]. split; reflexivity.
  - intros i svc Hm He Hi Hu.
    destruct (ListServices_table P info σ e H) as (_ & Hl). cbv zeta in Hl.
    rewrite Hm, He in Hl. destruct Hl as [_ Hl].
    eexists _, _. split; [exact Hl|]. split.
    + rewrite list_lookup_fmap, Hi. reflexivity.
    + split; [reflexivity|].
      transitivity (Some (JsString (utf8_of P (lpServiceName svc))));
        [reflexivity | by rewrite (Hempty _ Hu)].
Qed.

Lemma unreadable_names_witness :
  (∃ record : gmap string JsValue,
     completion (GetServiceStatus (scripted nameless) [JsString "Spooler"]
                   (entry tt 0 ∅))
       = Returned (JsObject record)
     ∧ record !! "displayName" = Some (JsString ""))
  ∧ ∃ (items : list JsValue) (record : gmap string JsValue),
      completion (ListServices unconvertible [] (entry tt 0 ∅))
        = Returned (JsArray items)
      ∧ items !! 0%nat = Some (JsObject record)
      ∧ record !! "name" = Some (JsString "").
Proof.
  split.
  - destruct (proj1 (unreadable_names_are_empty (scripted nameless) "Spooler"
                       [] tt 0 ∅)
                spooler_status {| config_lpDisplayName := None |}
                eq_refl eq_refl eq_refl eq_refl (or_introl eq_refl))
      as (record & Hr & _ & Hd).
    by exists record.
  - destruct (proj2 (unreadable_names_are_empty unconvertible "" [] tt 0 ∅)
                0%nat
                {| lpServiceName := Some (wide_of_ascii "Spooler");
                   lpDisplayName := Some (wide_of_ascii "Print Spooler");
                   ServiceStatusProcess := spooler_status |}
                eq_refl eq_refl eq_refl
                (or_intror (ex_intro _ (wide_of_ascii "Spooler")
                              (ex_intro _ ERROR_NO_UNICODE_TRANSLATION
                                 (conj eq_refl eq_refl)))))
      as (items & record & Hr & Hi & _ & Hn).
    by exists items, record.
Defined.

(** X16.  Once the session is open, [ListServices] calls
    [EnumServicesStatusExW] twice: first with no buffer (size 0), then
    with a buffer whose size is what the first call stored in bytesNeeded
    (0 if it stored nothing), passing the resume handle the first call
    left; then it closes the session.  When the second call fails with
    [err], [GetLastError] is the next and last call, null is returned and
    no array, and the error thrown carries what the last-error cell holds
    by then: what the close stored in it, or [err] if the close stored
    nothing. *)
Theorem ListServices_two_phase {S} (P : Platform S) (info : CallbackInfo)
    (σ : S) (e : DWORD) (H : gset SC_HANDLE) :
  (manager_answer P σ).1 = Ok tt →
  let r := ListServices P info (entry σ e H) in
  let h := manager_handle H in
  let enumeration :=
    [CallOpenSCManagerW manager_rights;
     CallEnumServicesStatusExW h 0 0;
     CallEnumServicesStatusExW h (bytesNeeded P σ H) (resumeHandle P σ H);
     CallCloseServiceHandle h] in
  (∃ rest, calls r.2 = enumeration ++ rest)
  ∧ (∀ err : DWORD,
       enum_result (enum_answer P σ H).1 = Fail err →
       r.1 = JsNull
       ∧ calls r.2 = enumeration ++ [CallGetLastError]
       ∧ completion r
         = Thrown (Error ("EnumServicesStatusExW failed (error "
                            +:+ to_string
                                  (default err
                                     (handle_closed P h (enum_answer P σ H).2).1)
                            +:+ ")"))).
Proof.
  intros Hm. cbv zeta.
  pose proof (ListServices_run P info σ e H [] None) as Hr. cbv zeta in Hr.
  rewrite Hm in Hr. unfold entry. split.
  - destruct (enum_result (enum_answer P σ H).1) as [[]|c1].
    + destruct Hr as [err ->]. by eexists.
    + rewrite Hr. by eexists.
  - intros err Herr. rewrite Herr in Hr. rewrite Hr. done.
Qed.

Lemma ListServices_two_phase_witness :
  (manager_answer (scripted enum_fails) tt).1 = Ok tt
  ∧ enum_result (enum_answer (scripted enum_fails) tt ∅).1 = Fail ERROR_MORE_DATA
  ∧ completion (ListServices (scripted enum_fails) [] (entry tt 0 ∅))
    = Thrown (Error "EnumServicesStatusExW failed (error 234)").
Proof.
  split; [reflexivity|]. split; [reflexivity|].
  exact (proj2 (proj2 (proj2 (ListServices_two_phase (scripted enum_fails) []
                                tt 0 ∅ eq_refl) ERROR_MORE_DATA eq_refl))).
Defined.
